(** * belfius-api: statement importer and invoice matcher

    A shallow embedding of
    - [apps/invoiceninja/import-statements.js]: the statement parser, the
      batch over archives and PDF files, and the operation index builder;
    - the invoice matcher, the script whose usage text names it
      [apps/invoiceninja/match-invoices-payments.js];
    together with the properties their specification states about them.

    Conventions of the embedding.
    - A JavaScript string is a [string], a sequence of bytes; a non-ASCII
      character is its UTF-8 encoding, so that [length], [slice] and the
      regular expression [.] count bytes.  The classes [\d], [\s], [A-Z],
      [a-z] and the case conversions are the ASCII ones: the non-ASCII white
      space of [\s] and [trim], and the case mapping of non-ASCII letters,
      are outside the model.
    - A JavaScript number is an exact rational ([Q]); [Infinity] and [NaN]
      are explicit wherever the code produces or tests them, and the
      rounding of binary floating point is outside the model.
    - [null] is [None].  Every property the importer writes is present, so
      [undefined] only appears where the code reads an optional input.
    - An exception is the [Err] case of [result], carrying [Error.message].
    - A cursor [(lines, index)] is the list of the lines from [index] on; a
      loop that advances its cursor by a varying number of lines takes a
      fuel, and the fuel its caller gives is shown to be enough.
    - The text that [pdf-parse] extracts from a document, the files of the
      output directory and the readings of the clock are explicit: the
      importer passes a [World] along.
    - The host functions [path.join], [path.basename],
      [new Date(s).getTime()] and [Number(s)] on strings, the clock and the
      configured date window are parameters of the programs. *)

From Stdlib Require Import ZArith QArith Qround Qabs Qminmax Lqa Lia String Ascii List.
From stdpp Require Import base option list strings gmap sets sorting.

Local Open Scope string_scope.
Local Open Scope list_scope.
Local Open Scope Z_scope.

(** ** JavaScript values and strings *)

Inductive result (A : Type) : Type :=
  | Ok (value : A)
  | Err (message : string).
Arguments Ok {A} value.
Arguments Err {A} message.

Global Instance result_bind : MBind result := fun A B k r =>
  match r with
  | Ok a => k a
  | Err m => Err m
  end.

Module JS.

Definition code (c : ascii) : N := N_of_ascii c.

(** [\d] *)
Definition is_digit (c : ascii) : bool :=
  (48 <=? code c)%N && (code c <=? 57)%N.

(** [\s], ASCII part: TAB, LF, VT, FF, CR, SPACE *)
Definition is_space (c : ascii) : bool :=
  ((9 <=? code c)%N && (code c <=? 13)%N) || (code c =? 32)%N.

(** [[A-Z]] *)
Definition is_upper (c : ascii) : bool :=
  (65 <=? code c)%N && (code c <=? 90)%N.

(** [[a-z]] *)
Definition is_lower (c : ascii) : bool :=
  (97 <=? code c)%N && (code c <=? 122)%N.

Definition digit_value (c : ascii) : Z := Z.of_N (code c) - 48.

Definition lower_char (c : ascii) : ascii :=
  if is_upper c then ascii_of_N (code c + 32) else c.

Definition upper_char (c : ascii) : ascii :=
  if is_lower c then ascii_of_N (code c - 32) else c.

Fixpoint map_chars (f : ascii -> ascii) (s : string) : string :=
  match s with
  | EmptyString => EmptyString
  | String c s' => String (f c) (map_chars f s')
  end.

Definition toLowerCase : string -> string := map_chars lower_char.
Definition toUpperCase : string -> string := map_chars upper_char.

Fixpoint filter_chars (p : ascii -> bool) (s : string) : string :=
  match s with
  | EmptyString => EmptyString
  | String c s' => if p c then String c (filter_chars p s') else filter_chars p s'
  end.

Fixpoint all_chars (p : ascii -> bool) (s : string) : bool :=
  match s with
  | EmptyString => true
  | String c s' => p c && all_chars p s'
  end.

Fixpoint trimStart (s : string) : string :=
  match s with
  | EmptyString => EmptyString
  | String c s' => if is_space c then trimStart s' else s
  end.

Definition trimEnd (s : string) : string :=
  String.rev (trimStart (String.rev s)).

Definition trim (s : string) : string := trimEnd (trimStart s).

Definition startsWith (s p : string) : bool := String.prefix p s.

(** [s.includes(sub)] *)
Fixpoint includes (s sub : string) : bool :=
  String.prefix sub s ||
  match s with
  | EmptyString => false
  | String _ s' => includes s' sub
  end.

(** A value used as a condition: [null] and the empty string are falsy. *)
Definition truthy (v : option string) : bool :=
  match v with
  | Some s => negb (String.eqb s EmptyString)
  | None => false
  end.

Definition nonempty (s : string) : bool := negb (String.eqb s EmptyString).

(** [a || b] on string-or-null values *)
Definition or_else (a b : option string) : option string :=
  if truthy a then a else b.

(** [`${v}`] *)
Definition template (v : option string) : string :=
  match v with
  | Some s => s
  | None => "null"
  end.

(** [parts.join(sep)] *)
Fixpoint join (sep : string) (parts : list string) : string :=
  match parts with
  | [] => EmptyString
  | [p] => p
  | p :: rest => p +:+ sep +:+ join sep rest
  end.

(** [s.split(c)] for a one-character separator *)
Fixpoint split_go (c : ascii) (cur : string) (s : string) : list string :=
  match s with
  | EmptyString => [String.rev cur]
  | String a s' =>
      if Ascii.eqb a c then String.rev cur :: split_go c EmptyString s'
      else split_go c (String a cur) s'
  end.
Definition split (c : ascii) (s : string) : list string := split_go c EmptyString s.

(** [s.split(/\s+/)]: the pieces between the maximal runs of white space;
    a run at either end leaves an empty piece there. *)
Fixpoint split_ws_go (cur : string) (in_run : bool) (s : string) : list string :=
  match s with
  | EmptyString => [String.rev cur]
  | String a s' =>
      if is_space a then
        if in_run then split_ws_go cur true s'
        else String.rev cur :: split_ws_go EmptyString true s'
      else split_ws_go (String a cur) false s'
  end.
Definition split_ws (s : string) : list string := split_ws_go EmptyString false s.

(** [s.replace(/[^...]+/g, r)]: every maximal run of characters that
    satisfy [p] is replaced by [r]. *)
Fixpoint replace_runs_go (p : ascii -> bool) (r : string) (in_run : bool) (s : string) : string :=
  match s with
  | EmptyString => EmptyString
  | String a s' =>
      if p a then
        if in_run then replace_runs_go p r true s'
        else r +:+ replace_runs_go p r true s'
      else String a (replace_runs_go p r false s')
  end.
Definition replace_runs (p : ascii -> bool) (r : string) (s : string) : string :=
  replace_runs_go p r false s.

(** [x <= y] and [x < y] on numbers *)
Definition Qleb (x y : Q) : bool := Qle_bool x y.
Definition Qltb (x y : Q) : bool := negb (Qle_bool y x).

(** [Math.round]: the nearest integer, halves towards plus infinity *)
Definition Math_round (x : Q) : Z := Qfloor (x + (1 # 2)).

(** Decimal rendering of an integer, as a template literal prints it. *)
Fixpoint digits_of_pos_go (fuel : nat) (n : Z) (acc : string) : string :=
  match fuel with
  | O => acc
  | S fuel' =>
      let acc' := String (ascii_of_N (Z.to_N (n mod 10) + 48)) acc in
      if n / 10 =? 0 then acc' else digits_of_pos_go fuel' (n / 10) acc'
  end.
Definition string_of_Z (n : Z) : string :=
  if n <? 0 then "-" +:+ digits_of_pos_go (Z.to_nat (Z.log2 (- n)) + 1) (- n) EmptyString
  else digits_of_pos_go (Z.to_nat (Z.log2 n) + 1) n EmptyString.

(** The longest prefix of characters satisfying [p], and the rest. *)
Fixpoint span (p : ascii -> bool) (s : string) : string * string :=
  match s with
  | EmptyString => (EmptyString, EmptyString)
  | String c s' =>
      if p c then let '(a, b) := span p s' in (String c a, b)
      else (EmptyString, s)
  end.

(** Exactly [n] leading digits ([\d{n}]), and the rest. *)
Fixpoint digitsN (n : nat) (s : string) : option (string * string) :=
  match n with
  | O => Some (EmptyString, s)
  | S n' =>
      match s with
      | String c s' =>
          if is_digit c then
            match digitsN n' s' with
            | Some (d, r) => Some (String c d, r)
            | None => None
            end
          else None
      | EmptyString => None
      end
  end.

(** One given leading character, and the rest. *)
Definition expect (c : ascii) (s : string) : option string :=
  match s with
  | String a s' => if Ascii.eqb a c then Some s' else None
  | EmptyString => None
  end.

(** The value of a string of decimal digits. *)
Fixpoint digits_value_go (acc : Z) (s : string) : Z :=
  match s with
  | EmptyString => acc
  | String c s' => digits_value_go (10 * acc + digit_value c) s'
  end.
Definition digits_value (s : string) : Z := digits_value_go 0 s.

Definition endsWith (s suffix : string) : bool :=
  String.prefix (String.rev suffix) (String.rev s).

(** [s.slice(-n)]: the last [n] characters. *)
Definition slice_last (n : nat) (s : string) : string :=
  String.substring (String.length s - n) n s.

(** [s.slice(0, -n)] for [n > 0]: all but the last [n] characters. *)
Definition slice_drop_last (n : nat) (s : string) : string :=
  String.substring 0 (String.length s - n) s.

(** [s.slice(n)]: the characters from position [n] on. *)
Definition slice_from (n : nat) (s : string) : string :=
  String.substring n (String.length s - n) s.

(** [s.indexOf(c)]; [None] is [-1]. *)
Fixpoint indexOf (c : ascii) (s : string) : option nat :=
  match s with
  | EmptyString => None
  | String a s' => if Ascii.eqb a c then Some O else S <$> indexOf c s'
  end.

(** [s.padStart(n, "0")] *)
Definition padStart0 (n : nat) (s : string) : string :=
  String.concat EmptyString (replicate (n - String.length s) "0") +:+ s.

(** [parseInt(s, 10)]: leading white space, an optional sign, then the
    longest run of digits; [None] is [NaN]. *)
Definition parseInt (s : string) : option Z :=
  let s1 := trimStart s in
  let '(neg, s2) :=
    match s1 with
    | String c r =>
        if Ascii.eqb c "-" then (true, r)
        else if Ascii.eqb c "+" then (false, r)
        else (false, s1)
    | EmptyString => (false, s1)
    end in
  let '(ds, _) := span is_digit s2 in
  if nonempty ds then Some (if neg then - digits_value ds else digits_value ds)
  else None.

(** The exponent part [[eE][+-]?\d+] of a decimal literal, when present. *)
Definition exponent_part (s : string) : option Z :=
  match s with
  | String c r =>
      if Ascii.eqb c "e" || Ascii.eqb c "E" then
        let '(neg, r') :=
          match r with
          | String c' t =>
              if Ascii.eqb c' "-" then (true, t)
              else if Ascii.eqb c' "+" then (false, t)
              else (false, r)
          | EmptyString => (false, r)
          end in
        let '(ds, _) := span is_digit r' in
        if nonempty ds then Some (if neg then - digits_value ds else digits_value ds)
        else None
      else None
  | EmptyString => None
  end.

Definition pow10 (e : Z) : Q :=
  if e <? 0 then 1 # Pos.pow 10 (Z.to_pos (- e)) else inject_Z (10 ^ e).

(** [parseFloat(s)]: leading white space, an optional sign, then the
    longest prefix that is a decimal literal; [None] is [NaN].  The
    literal [Infinity] is not modelled. *)
Definition parseFloat (s : string) : option Q :=
  let s1 := trimStart s in
  let '(neg, s2) :=
    match s1 with
    | String c r =>
        if Ascii.eqb c "-" then (true, r)
        else if Ascii.eqb c "+" then (false, r)
        else (false, s1)
    | EmptyString => (false, s1)
    end in
  let '(ip, s3) := span is_digit s2 in
  let '(fp, s4) :=
    match s3 with
    | String c r => if Ascii.eqb c "." then span is_digit r else (EmptyString, s3)
    | EmptyString => (EmptyString, s3)
    end in
  if nonempty ip || nonempty fp then
    let mantissa :=
      (inject_Z (digits_value ip) +
       inject_Z (digits_value fp) * pow10 (- Z.of_nat (String.length fp)))%Q in
    let scaled :=
      match exponent_part s4 with
      | Some e => (mantissa * pow10 e)%Q
      | None => mantissa
      end in
    Some (Qred (if neg then - scaled else scaled)%Q)
  else None.

End JS.

Import JS.

(** ** The statement importer: data *)

Record Account := {
  account_name : option string;
  account_iban : string;
  account_currency : option string;
  account_bic : option string;
}.

Record Balance := {
  balance_date : option string;
  balance_amount : option Q;
}.

Record Balances := {
  closing : Balance;
  opening : Balance;
}.

Record StatementMeta := {
  meta_account : Account;
  meta_statementNumber : option string;
  meta_statementYear : option string;
  meta_balances : Balances;
  (** [None] is the [-1] of [findIndex] *)
  operationsHeaderIndex : option nat;
}.

Record ValueInfo := {
  vi_valueDate : option string;
  vi_amount : option Q;
  vi_currency : option string;
  vi_direction : option string;
}.

Record Details := {
  d_executionDate : option string;
  d_communication : option string;
  d_bankReference : option string;
  d_orderReference : option string;
  d_counterpartyAccount : option string;
  d_counterpartyCurrency : option string;
  d_counterpartyBic : option string;
  d_counterpartyName : option string;
  d_counterpartyAddress : option string;
  d_additionalDetails : list string;
}.

Record RawDetails := {
  detailLines : list string;
  valueLine : option string;
}.

Record Operation := {
  sequence : string;
  title : string;
  bookingDate : option string;
  executionDate : option string;
  valueDate : option string;
  amount : option Q;
  currency : option string;
  direction : option string;
  communication : option string;
  bankReference : option string;
  orderReference : option string;
  counterpartyAccount : option string;
  counterpartyCurrency : option string;
  counterpartyBic : option string;
  counterpartyName : option string;
  counterpartyAddress : option string;
  additionalDetails : list string;
  rawDetails : RawDetails;
}.

Record Source := {
  source_type : string;
  originPath : string;
  entryName : option string;
}.

Record Statement := {
  statementId : string;
  (** the instant of [new Date()]; the artifact holds its ISO rendering *)
  generatedAt : Z;
  source : Source;
  account : Account;
  balances : Balances;
  statementNumber : option string;
  statementYear : option string;
  operations : list Operation;
  rawStatementLines : list string;
}.

(** A processed statement: [{...parsed, outputPath}] *)
Record Processed := {
  parsed : Statement;
  outputPath : string;
}.

(** An entry of the aggregated index. *)
Record IndexEntry := {
  ix_statementId : option string;
  ix_statementFile : option string;
  ix_accountIban : option string;
  ix_accountName : option string;
  ix_statementYear : option string;
  ix_statementNumber : option string;
  ix_sequence : option string;
  ix_title : option string;
  ix_bookingDate : option string;
  ix_executionDate : option string;
  ix_valueDate : option string;
  ix_amount : option Q;
  ix_currency : option string;
  ix_direction : option string;
  ix_communication : option string;
  ix_bankReference : option string;
  ix_orderReference : option string;
  ix_counterpartyAccount : option string;
  ix_counterpartyBic : option string;
  ix_counterpartyName : option string;
  ix_counterpartyAddress : option string;
}.

Record IndexPayload := {
  index_generatedAt : Z;
  index_operations : list IndexEntry;
}.

Inductive File :=
  | StatementJson (s : Statement)
  | IndexJson (p : IndexPayload)
  | OtherFile.

(** The part of the world the importer reads and writes: the files of the
    output directory, and how many times the clock was read. *)
Record World := {
  files : gmap string File;
  ticks : nat;
}.

Record ZipEntry := {
  ze_entryName : string;
  ze_isDirectory : bool;
  (** the text [PDFParse] extracts from the entry, or the exception it throws *)
  ze_text : result string;
}.

Record Failure := {
  failure_source : string;
  failure_path : string;
  failure_entryName : option string;
  failure_error : string;
}.

Record Options := {
  outputDir : string;
  overwrite : bool;
}.

Definition IBAN_MIN_LENGTH : nat := 14.

(** ** The statement importer: regular expressions *)

Definition is_amount_char (c : ascii) : bool :=
  is_digit c || Ascii.eqb c "." || Ascii.eqb c ",".

Definition is_sign (c : ascii) : bool := Ascii.eqb c "+" || Ascii.eqb c "-".

(** [VALUE_LINE_REGEX = /^(\d{2})-(\d{2})(?:-(\d{4}))?\s+([\d.,]+)\s*([+-])$/];
    the groups are day, month, year, amount and sign. *)
Definition match_VALUE_LINE (s : string)
  : option (string * string * option string * string * ascii) :=
  '(day, r1) ← digitsN 2 s;
  r2 ← expect "-" r1;
  '(month, r3) ← digitsN 2 r2;
  let '(yearMaybe, r4) :=
    match expect "-" r3 ≫= digitsN 4 with
    | Some (y, r) => (Some y, r)
    | None => (None, r3)
    end in
  let '(ws, r5) := span is_space r4 in
  let '(amountString, r6) := span is_amount_char r5 in
  let '(_, r7) := span is_space r6 in
  match r7 with
  | String sign EmptyString =>
      if nonempty ws && nonempty amountString && is_sign sign
      then Some (day, month, yearMaybe, amountString, sign)
      else None
  | _ => None
  end.

Definition VALUE_LINE_test (s : string) : bool :=
  match match_VALUE_LINE s with Some _ => true | None => false end.

(** [ISO_DATE_REGEX = /^(\d{2})-(\d{2})-(\d{4})$/]; day, month, year. *)
Definition match_ISO_DATE (s : string) : option (string * string * string) :=
  '(day, r1) ← digitsN 2 s;
  r2 ← expect "-" r1;
  '(month, r3) ← digitsN 2 r2;
  r4 ← expect "-" r3;
  '(year, r5) ← digitsN 4 r4;
  if nonempty r5 then None else Some (day, month, year).

Definition ISO_DATE_test (s : string) : bool :=
  match match_ISO_DATE s with Some _ => true | None => false end.

(** [.] matches every character but a line terminator. *)
Definition is_dot (c : ascii) : bool :=
  negb (Ascii.eqb c "010" || Ascii.eqb c "013").

(** The last character of a string. *)
Definition last_char (s : string) : option ascii :=
  match String.rev s with
  | String c _ => Some c
  | EmptyString => None
  end.

(** [/^(0\d{3})\s+(.+)$/]; sequence and title.  When nothing follows the
    white space, the regular expression gives its last character back to
    the title. *)
Definition match_operation (s : string) : option (string * string) :=
  r1 ← expect "0" s;
  '(ds, r2) ← digitsN 3 r1;
  let '(ws, r3) := span is_space r2 in
  if nonempty r3 then
    if nonempty ws && all_chars is_dot r3 then Some (String "0" ds, r3) else None
  else
    match last_char ws with
    | Some c =>
        if (2 <=? String.length ws)%nat && is_dot c
        then Some (String "0" ds, String c EmptyString)
        else None
    | None => None
    end.

Definition is_upper_or_digit (c : ascii) : bool := is_upper c || is_digit c.

(** [/^[A-Z]{2}\d{2}[A-Z0-9]+$/] *)
Definition IBAN_shape_test (s : string) : bool :=
  match s with
  | String a (String b (String c (String d rest))) =>
      is_upper a && is_upper b && is_digit c && is_digit d &&
      nonempty rest && all_chars is_upper_or_digit rest
  | _ => false
  end.

(** [/^[A-Z]{2}\d{2}/] *)
Definition IBAN_prefix_test (s : string) : bool :=
  match s with
  | String a (String b (String c (String d _))) =>
      is_upper a && is_upper b && is_digit c && is_digit d
  | _ => false
  end.

(** [/^[A-Z]{3}$/] *)
Definition currency_test (s : string) : bool :=
  (String.length s =? 3)%nat && all_chars is_upper s.

(** [BIC_REGEX = /^([A-Z]{4}[A-Z0-9]{2}[A-Z0-9]{2,3})$/] *)
Definition BIC_test (s : string) : bool :=
  ((String.length s =? 8)%nat || (String.length s =? 9)%nat) &&
  all_chars is_upper (String.substring 0 4 s) &&
  all_chars is_upper_or_digit (String.substring 4 5 s).

(** The first position of [s] where [f] matches. *)
Fixpoint search {A} (f : string -> option A) (s : string) : option A :=
  match f s with
  | Some a => Some a
  | None =>
      match s with
      | EmptyString => None
      | String _ s' => search f s'
      end
  end.

(** A given leading string, and the rest. *)
Fixpoint strip_prefix (p s : string) : option string :=
  match p with
  | EmptyString => Some s
  | String a p' =>
      match s with
      | String b s' => if Ascii.eqb a b then strip_prefix p' s' else None
      | EmptyString => None
      end
  end.

(** [/Extrait N°\s+(\d{4})\s*-\s*(\d+)/] at the start of [s]; year, number. *)
Definition title_at (s : string) : option (string * string) :=
  r0 ← strip_prefix "Extrait N°" s;
  let '(ws, r1) := span is_space r0 in
  if nonempty ws then
    '(year, r2) ← digitsN 4 r1;
    let '(_, r3) := span is_space r2 in
    r4 ← expect "-" r3;
    let '(_, r5) := span is_space r4 in
    let '(number, _) := span is_digit r5 in
    if nonempty number then Some (year, number) else None
  else None.

(** [/au\s+(\d{2}-\d{2}-\d{4})\s+([\d.,]+)\s*([+-])/] at the start of [s];
    date, amount and sign. *)
Definition balance_at (s : string) : option (string * string * ascii) :=
  r0 ← strip_prefix "au" s;
  let '(ws, r1) := span is_space r0 in
  if nonempty ws then
    '(day, r2) ← digitsN 2 r1;
    r3 ← expect "-" r2;
    '(month, r4) ← digitsN 2 r3;
    r5 ← expect "-" r4;
    '(year, r6) ← digitsN 4 r5;
    let '(ws2, r7) := span is_space r6 in
    let '(amountPart, r8) := span is_amount_char r7 in
    let '(_, r9) := span is_space r8 in
    match r9 with
    | String sign _ =>
        if nonempty ws2 && nonempty amountPart && is_sign sign
        then Some (day +:+ "-" +:+ month +:+ "-" +:+ year, amountPart, sign)
        else None
    | EmptyString => None
    end
  else None.

(** ** The statement importer: parsing one statement *)

Definition toIsoDate (dateString : string) : option string :=
  if nonempty dateString then
    match match_ISO_DATE dateString with
    | Some (day, month, year) => Some (year +:+ "-" +:+ month +:+ "-" +:+ day)
    | None => None
    end
  else None.

(** Arithmetic and comparison on an integer that may be [NaN] ([None]). *)
Definition nan_sub (a b : option Z) : option Z :=
  match a, b with
  | Some x, Some y => Some (x - y)
  | _, _ => None
  end.

Definition nan_ltb (a : option Z) (b : Z) : bool :=
  match a with
  | Some x => x <? b
  | None => false
  end.

Definition nan_gtb (a : option Z) (b : Z) : bool :=
  match a with
  | Some x => b <? x
  | None => false
  end.

Definition nan_template (a : option Z) : string :=
  match a with
  | Some x => string_of_Z x
  | None => "NaN"
  end.

Definition inferValueDate (day month : string) (yearMaybe bookingDate : option string)
  : option string :=
  if truthy yearMaybe then
    Some (template yearMaybe +:+ "-" +:+ month +:+ "-" +:+ day)
  else if truthy bookingDate then
    let parts := parseInt <$> split "-" (template bookingDate) in
    let bookingYear := mjoin (parts !! 0%nat) in
    let bookingMonth := mjoin (parts !! 1%nat) in
    let valueMonth := parseInt month in
    let monthDelta := nan_sub valueMonth bookingMonth in
    let year :=
      if nan_ltb monthDelta (-6) then Z.add 1 <$> bookingYear
      else if nan_gtb monthDelta 6 then (fun y => y - 1) <$> bookingYear
      else bookingYear in
    Some (nan_template year +:+ "-" +:+ month +:+ "-" +:+ day)
  else None.


(** [raw.replace(',', '.')]: the first comma only *)
Fixpoint replace_first_comma (s : string) : string :=
  match s with
  | EmptyString => EmptyString
  | String c s' => if Ascii.eqb c "," then String "." s' else String c (replace_first_comma s')
  end.

Definition parseEuropeanNumber (raw : string) : Q :=
  if nonempty raw then
    let normalized :=
      replace_first_comma
        (filter_chars (fun c => negb (is_space c))
           (filter_chars (fun c => negb (Ascii.eqb c ".")) raw)) in
    match parseFloat normalized with
    | Some parsed => parsed
    | None => 0%Q
    end
  else 0%Q.

Definition or_null (v : option string) : option string := or_else v None.

Definition parseValueLine (line bookingDate currency : option string) : ValueInfo :=
  let no_value := {|
    vi_valueDate := or_null bookingDate;
    vi_amount := None;
    vi_currency := currency;
    vi_direction := None;
  |} in
  if truthy line then
    match match_VALUE_LINE (template line) with
    | None => no_value
    | Some (day, month, yearMaybe, amountString, sign) =>
        let inferredDate := inferValueDate day month yearMaybe bookingDate in
        let numericAmount := parseEuropeanNumber amountString in
        let signedAmount := if Ascii.eqb sign "-" then (- numericAmount)%Q else numericAmount in
        {| vi_valueDate := inferredDate;
           vi_amount := Some signedAmount;
           vi_currency := currency;
           vi_direction := Some (if Ascii.eqb sign "-" then "debit" else "credit") |}
    end
  else no_value.


Definition remove_spaces (s : string) : string :=
  filter_chars (fun c => negb (is_space c)) s.

(** [parseIbanLine]; [None] is [null], otherwise the IBAN and the currency. *)
Definition parseIbanLine (line : string) : option (string * option string) :=
  let compact := remove_spaces line in
  if (String.length compact <? IBAN_MIN_LENGTH)%nat then None
  else if negb (IBAN_shape_test compact) then None
  else
    let matches := split_ws (trim line) in
    match last matches with
    | None => None
    | Some currencyCandidate =>
        if currency_test currencyCandidate then
          Some (slice_drop_last (String.length currencyCandidate) compact,
                Some currencyCandidate)
        else Some (compact, None)
    end.

(** The scan of [consumeValue] over the lines after [startIndex]: the value
    found and the lines after it, or [None] when the scan stops without. *)
Fixpoint consumeValue_scan (rest : list string) : option (string * list string) :=
  match rest with
  | [] => None
  | candidate :: rest' =>
      if negb (nonempty candidate) then consumeValue_scan rest'
      else if includes candidate ":" then None
      else Some (trim candidate, rest')
  end.

(** [consumeValue(lines, startIndex)], on [line = lines[startIndex]] and the
    lines after it; the result is the value and the lines after [nextIndex]. *)
Definition consumeValue (line : string) (rest : list string) : string * list string :=
  let value :=
    match indexOf ":" line with
    | None => EmptyString
    | Some colonIndex => trim (slice_from (S colonIndex) line)
    end in
  if nonempty value then (value, rest)
  else
    match consumeValue_scan rest with
    | Some (v, rest') => (v, rest')
    | None => (value, rest)
    end.

Definition empty_details : Details := {|
  d_executionDate := None;
  d_communication := None;
  d_bankReference := None;
  d_orderReference := None;
  d_counterpartyAccount := None;
  d_counterpartyCurrency := None;
  d_counterpartyBic := None;
  d_counterpartyName := None;
  d_counterpartyAddress := None;
  d_additionalDetails := [];
|}.

Definition set_executionDate (v : option string) (d : Details) : Details :=
  {| d_executionDate := v;
     d_communication := d_communication d;
     d_bankReference := d_bankReference d;
     d_orderReference := d_orderReference d;
     d_counterpartyAccount := d_counterpartyAccount d;
     d_counterpartyCurrency := d_counterpartyCurrency d;
     d_counterpartyBic := d_counterpartyBic d;
     d_counterpartyName := d_counterpartyName d;
     d_counterpartyAddress := d_counterpartyAddress d;
     d_additionalDetails := d_additionalDetails d |}.

Definition set_communication (v : option string) (d : Details) : Details :=
  {| d_executionDate := d_executionDate d;
     d_communication := v;
     d_bankReference := d_bankReference d;
     d_orderReference := d_orderReference d;
     d_counterpartyAccount := d_counterpartyAccount d;
     d_counterpartyCurrency := d_counterpartyCurrency d;
     d_counterpartyBic := d_counterpartyBic d;
     d_counterpartyName := d_counterpartyName d;
     d_counterpartyAddress := d_counterpartyAddress d;
     d_additionalDetails := d_additionalDetails d |}.

Definition set_bankReference (v : option string) (d : Details) : Details :=
  {| d_executionDate := d_executionDate d;
     d_communication := d_communication d;
     d_bankReference := v;
     d_orderReference := d_orderReference d;
     d_counterpartyAccount := d_counterpartyAccount d;
     d_counterpartyCurrency := d_counterpartyCurrency d;
     d_counterpartyBic := d_counterpartyBic d;
     d_counterpartyName := d_counterpartyName d;
     d_counterpartyAddress := d_counterpartyAddress d;
     d_additionalDetails := d_additionalDetails d |}.

Definition set_orderReference (v : option string) (d : Details) : Details :=
  {| d_executionDate := d_executionDate d;
     d_communication := d_communication d;
     d_bankReference := d_bankReference d;
     d_orderReference := v;
     d_counterpartyAccount := d_counterpartyAccount d;
     d_counterpartyCurrency := d_counterpartyCurrency d;
     d_counterpartyBic := d_counterpartyBic d;
     d_counterpartyName := d_counterpartyName d;
     d_counterpartyAddress := d_counterpartyAddress d;
     d_additionalDetails := d_additionalDetails d |}.

Definition set_counterpartyAccount (iban : option string) (cur : option string) (d : Details)
  : Details :=
  {| d_executionDate := d_executionDate d;
     d_communication := d_communication d;
     d_bankReference := d_bankReference d;
     d_orderReference := d_orderReference d;
     d_counterpartyAccount := iban;
     d_counterpartyCurrency := cur;
     d_counterpartyBic := d_counterpartyBic d;
     d_counterpartyName := d_counterpartyName d;
     d_counterpartyAddress := d_counterpartyAddress d;
     d_additionalDetails := d_additionalDetails d |}.

Definition set_counterpartyBic (v : option string) (d : Details) : Details :=
  {| d_executionDate := d_executionDate d;
     d_communication := d_communication d;
     d_bankReference := d_bankReference d;
     d_orderReference := d_orderReference d;
     d_counterpartyAccount := d_counterpartyAccount d;
     d_counterpartyCurrency := d_counterpartyCurrency d;
     d_counterpartyBic := v;
     d_counterpartyName := d_counterpartyName d;
     d_counterpartyAddress := d_counterpartyAddress d;
     d_additionalDetails := d_additionalDetails d |}.

(** The residual lines: name, address, then the additional details. *)
Definition set_residual (residual : list string) (d : Details) : Details :=
  {| d_executionDate := d_executionDate d;
     d_communication := d_communication d;
     d_bankReference := d_bankReference d;
     d_orderReference := d_orderReference d;
     d_counterpartyAccount := d_counterpartyAccount d;
     d_counterpartyCurrency := d_counterpartyCurrency d;
     d_counterpartyBic := d_counterpartyBic d;
     d_counterpartyName := residual !! 0%nat;
     d_counterpartyAddress := residual !! 1%nat;
     d_additionalDetails := drop 2 residual |}.

(** [value || old] for a string value and a string-or-null field *)
Definition value_or (value : string) (old : option string) : option string :=
  if nonempty value then Some value else old.

(** The loop of [parseDetailLines]: [lines] are the lines from [index] on,
    [fuel] bounds the number of iterations. *)
Fixpoint parseDetailLines_loop (fuel : nat) (lines : list string)
    (details : Details) (residual : list string) : Details * list string :=
  match fuel, lines with
  | S fuel', line :: rest =>
      if startsWith line "Date d'exécution" || startsWith line "Date de l'opération" then
        let '(value, rest') := consumeValue line rest in
        parseDetailLines_loop fuel' rest' (set_executionDate (toIsoDate value) details) residual
      else if startsWith line "Communication" then
        let '(value, rest') := consumeValue line rest in
        parseDetailLines_loop fuel' rest'
          (set_communication (value_or value (d_communication details)) details) residual
      else if startsWith line "Référence banque" then
        let '(value, rest') := consumeValue line rest in
        parseDetailLines_loop fuel' rest'
          (set_bankReference (value_or value (d_bankReference details)) details) residual
      else if startsWith line "Référence donneur d'ordre" then
        let '(value, rest') := consumeValue line rest in
        parseDetailLines_loop fuel' rest'
          (set_orderReference (value_or value (d_orderReference details)) details) residual
      else
        match parseIbanLine line with
        | Some (iban, cur) =>
            parseDetailLines_loop fuel' rest
              (set_counterpartyAccount (Some iban)
                 (or_else cur (d_counterpartyCurrency details)) details) residual
        | None =>
            let bicCandidate := remove_spaces line in
            if BIC_test bicCandidate then
              parseDetailLines_loop fuel' rest
                (set_counterpartyBic (Some bicCandidate) details) residual
            else parseDetailLines_loop fuel' rest details (residual ++ [line])
        end
  | _, _ => (details, residual)
  end.

Definition parseDetailLines (lines : list string) : Details :=
  let '(details, residual) := parseDetailLines_loop (length lines) lines empty_details [] in
  set_residual residual details.

Definition buildOperation (sequence title : string) (bookingDate valueLine : option string)
    (detailLines : list string) (currency : option string) : Operation :=
  let detailInfo := parseDetailLines detailLines in
  let valueInfo := parseValueLine valueLine bookingDate currency in
  {| sequence := sequence;
     title := title;
     bookingDate := or_null (or_else bookingDate (vi_valueDate valueInfo));
     executionDate := d_executionDate detailInfo;
     valueDate := vi_valueDate valueInfo;
     amount := vi_amount valueInfo;
     currency := vi_currency valueInfo;
     direction := vi_direction valueInfo;
     communication := d_communication detailInfo;
     bankReference := d_bankReference detailInfo;
     orderReference := d_orderReference detailInfo;
     counterpartyAccount := d_counterpartyAccount detailInfo;
     counterpartyCurrency := d_counterpartyCurrency detailInfo;
     counterpartyBic := d_counterpartyBic detailInfo;
     counterpartyName := d_counterpartyName detailInfo;
     counterpartyAddress := d_counterpartyAddress detailInfo;
     additionalDetails := d_additionalDetails detailInfo;
     rawDetails := {| detailLines := detailLines; valueLine := valueLine |} |}.

Definition is_footer (line : string) : bool :=
  startsWith line "Solde " || startsWith line "Les dépôts " || startsWith line "-- ".

Definition is_match {A} (m : option A) : bool :=
  match m with Some _ => true | None => false end.



(** The inner loop of [extractOperations] over the detail lines of one
    operation, on the lines from [index] on: the detail lines, the value
    line, the booking date and the lines left. *)
Fixpoint detail_loop (lines : list string) (currentBookingDate : option string)
    (detailLines : list string)
  : list string * option string * option string * list string :=
  match lines with
  | [] => (detailLines, None, currentBookingDate, [])
  | detailLine :: rest =>
      if negb (nonempty detailLine) then detail_loop rest currentBookingDate detailLines
      else if startsWith detailLine "Solde " || startsWith detailLine "-- " then
        (detailLines, None, currentBookingDate, lines)
      else if startsWith detailLine "..." then detail_loop rest currentBookingDate detailLines
      else if ISO_DATE_test detailLine then detail_loop rest (toIsoDate detailLine) detailLines
      else if VALUE_LINE_test detailLine then
        (detailLines, Some detailLine, currentBookingDate, rest)
      else if is_match (match_operation detailLine) then
        (detailLines, None, currentBookingDate, lines)
      else detail_loop rest currentBookingDate (detailLines ++ [detailLine])
  end.

(** The scan for a value line after a detail block that had none. *)
Fixpoint fallback_loop (lines : list string) : option string * list string :=
  match lines with
  | [] => (None, [])
  | fallbackLine :: rest =>
      if negb (nonempty fallbackLine) then fallback_loop rest
      else if VALUE_LINE_test fallbackLine then (Some fallbackLine, rest)
      else (None, lines)
  end.

(** The outer loop of [extractOperations], on the lines from [index] on;
    [fuel] bounds the number of iterations. *)
Fixpoint operations_loop (fuel : nat) (lines : list string)
    (currentBookingDate : option string) (currency : option string) : list Operation :=
  match fuel, lines with
  | S fuel', line :: rest =>
      if negb (nonempty line) then operations_loop fuel' rest currentBookingDate currency
      else if is_footer line then []
      else if startsWith line "..." then operations_loop fuel' rest currentBookingDate currency
      else if ISO_DATE_test line then operations_loop fuel' rest (toIsoDate line) currency
      else
        match match_operation line with
        | None => operations_loop fuel' rest currentBookingDate currency
        | Some (sequence, title) =>
            let '(detailLines, valueLine, bookingDate, rest1) :=
              detail_loop rest currentBookingDate [] in
            let '(valueLine', rest2) :=
              if truthy valueLine then (valueLine, rest1) else fallback_loop rest1 in
            buildOperation sequence title bookingDate valueLine' detailLines currency
              :: operations_loop fuel' rest2 bookingDate currency
        end
  | _, _ => []
  end.

(** The lines after the table header: [Date] and [Valeur Montant...] *)
Fixpoint skip_header (lines : list string) : list string :=
  match lines with
  | line :: rest =>
      if String.eqb line "Date" || startsWith line "Valeur Montant" then skip_header rest
      else lines
  | [] => []
  end.

Definition extractOperations (lines : list string) (statementMeta : StatementMeta)
    (context : Source) : result (list Operation) :=
  match operationsHeaderIndex statementMeta with
  | None => Err "Unable to find the operations header in the statement."
  | Some headerIndex =>
      let body := skip_header (drop (S headerIndex) lines) in
      Ok (operations_loop (length body) body None
            (account_currency (meta_account statementMeta)))
  end.








Fixpoint findIndex {A} (p : A -> bool) (l : list A) : option nat :=
  match l with
  | [] => None
  | x :: l' => if p x then Some O else S <$> findIndex p l'
  end.

Definition isPotentialIbanLine (line : string) : bool :=
  IBAN_prefix_test line && (IBAN_MIN_LENGTH <? String.length line)%nat.

(** The IBAN and the currency of the account line. *)
Definition parseAccountLine (line : string) : result (string * option string) :=
  let matches := split_ws (trim line) in
  match last matches with
  | None => Err "Invalid account line in statement."
  | Some currencyCandidate =>
      let hasCurrency := currency_test currencyCandidate in
      let ibanParts :=
        String.concat EmptyString
          (if hasCurrency then take (length matches - 1) matches else matches) in
      Ok (ibanParts, if hasCurrency then Some currencyCandidate else None)
  end.

(** Statement number and statement year. *)
Definition parseStatementTitle (line : option string) : option string * option string :=
  if truthy line then
    match search title_at (template line) with
    | Some (year, number) => (Some number, Some year)
    | None => (None, None)
    end
  else (None, None).

Definition parseBalanceLine (line : option string) : Balance :=
  let no_balance := {| balance_date := None; balance_amount := None |} in
  if truthy line then
    match search balance_at (template line) with
    | Some (datePart, amountPart, sign) =>
        let numericAmount := parseEuropeanNumber amountPart in
        let signedAmount := if Ascii.eqb sign "-" then (- numericAmount)%Q else numericAmount in
        {| balance_date := toIsoDate datePart; balance_amount := Some signedAmount |}
    | None => no_balance
    end
  else no_balance.

Definition extractStatementMeta (lines : list string) : result StatementMeta :=
  match findIndex isPotentialIbanLine lines with
  | None => Err "Unable to locate account IBAN line in statement."
  | Some ibanIndex =>
      let accountLine := default EmptyString (lines !! ibanIndex) in
      let accountName :=
        match ibanIndex with
        | O => None
        | S i => or_null (lines !! i)
        end in
      let bicLine := List.find (fun line => startsWith line "BIC ") lines in
      let statementTitleLine := List.find (fun line => includes line "Extrait N°") lines in
      let closingBalanceLine := List.find (fun line => startsWith line "Solde actuel au ") lines in
      let openingBalanceLine :=
        List.find (fun line => startsWith line "Solde précédent au ") lines in
      '(iban, cur) ← parseAccountLine accountLine;
      let account := {|
        account_name := accountName;
        account_iban := iban;
        account_currency := cur;
        account_bic :=
          if truthy bicLine then Some (trim (slice_from 3 (template bicLine))) else None;
      |} in
      let '(statementNumber, statementYear) := parseStatementTitle statementTitleLine in
      Ok {| meta_account := account;
            meta_statementNumber := statementNumber;
            meta_statementYear := statementYear;
            meta_balances := {| closing := parseBalanceLine closingBalanceLine;
                                opening := parseBalanceLine openingBalanceLine |};
            operationsHeaderIndex :=
              findIndex (fun line => startsWith line "N° Type d'opération") lines |}
  end.

(** [text.split(/\r?\n/)] *)
Fixpoint split_lines_go (cur : string) (s : string) : list string :=
  match s with
  | EmptyString => [String.rev cur]
  | String "013" (String "010" s') => String.rev cur :: split_lines_go EmptyString s'
  | String "010" s' => String.rev cur :: split_lines_go EmptyString s'
  | String a s' => split_lines_go (String a cur) s'
  end.
Definition split_lines (s : string) : list string := split_lines_go EmptyString s.

(** The lines [parseStatement] parses: trimmed, the blank ones dropped. *)
Definition trimmedLines (text : string) : list string :=
  List.filter nonempty (trim <$> split_lines text).



Definition padLeft (value : string) (length : nat) : string := padStart0 length value.

Definition is_file_safe (c : ascii) : bool :=
  is_upper c || is_lower c || is_digit c ||
  Ascii.eqb c "." || Ascii.eqb c "_" || Ascii.eqb c "-".

Definition buildFileSafeName (value : string) : string :=
  map_chars (fun c => if is_file_safe c then c else "_"%char) value.

(** ** The statement importer: command line and sources *)

(** The options that [parseArgs] reads from the command line. *)
Record CliOptions := {
  cli_inputPath : string;
  cli_outputDir : string;
  cli_includeStandalonePdfs : bool;
  cli_overwrite : bool;
}.

(** How reading the command line ends: with the options, or with
    [process.exit(code)] once the usage text is printed.  What the
    programs print is outside the model. *)
Inductive Cli (A : Type) : Type :=
  | Parsed (options : A)
  | Exit (code : Z).
Arguments Parsed {A} options.
Arguments Exit {A} code.

Definition SKIP_DIRECTORIES : gset string :=
  {[ ".git"; "node_modules"; ".cache"; ".idea"; ".vscode" ]}.

(** An entry of a directory as [readdir] lists it with [withFileTypes]: a
    file, a directory together with what [readdir] returns for it (or the
    exception it throws), or an entry of another kind, such as a symbolic
    link. *)
Unset Elimination Schemes.
Inductive Dirent :=
  | DirentFile (name : string)
  | DirentDirectory (name : string) (content : result (list Dirent))
  | DirentOther (name : string).
Set Elimination Schemes.

(** What [stat] tells of the input path: a file, or something else
    together with what [readdir] returns for it. *)
Inductive Stats :=
  | StatFile
  | StatOther (content : result (list Dirent)).

(** [zipFiles] and [pdfFiles] *)
Record Collections := {
  found_zipFiles : list string;
  found_pdfFiles : list string;
}.

(** ** The invoice matcher: data *)

(** A property of the invoice as the invoicing service sends it. *)
Inductive jsval :=
  | JUndefined
  | JNull
  | JNum (q : Q)
  | JStr (s : string).

Record Client := {
  display_name : option string;
  client_name : option string;
}.

Record Invoice := {
  invoice_status_id : option Z;
  status_id : option Z;
  inv_amount : jsval;
  inv_balance : jsval;
  invoice_date : option string;
  due_date : option string;
  invoice_number : option string;
  number : option string;
  client : option Client;
}.

Record Target := {
  target_value : Q;
  target_label : string;
}.

Record Candidate := {
  targetLabel : string;
  operation : IndexEntry;
  daysDiff : option Q;
  refScore : Z;
  nameScore : Z;
  confidence : Z;
}.

(** What [diffDays] returns. *)
Inductive Days :=
  | Finite (d : Q)
  | Infinity.

(** The configured window: any number, [NaN] included. *)
Inductive jsnumber :=
  | Num (q : Q)
  | PosInfinity
  | NegInfinity
  | NaN.

(** [days > max] *)
Definition days_gt (days : Days) (max : jsnumber) : bool :=
  match days, max with
  | _, NaN => false
  | _, NegInfinity => true
  | _, PosInfinity => false
  | Finite d, Num m => Qltb m d
  | Infinity, Num _ => true
  end.

(** ** The statement importer: batches, artifacts and the index *)

Section Program.

(** The host functions and the configuration the two programs run with. *)

(** [path.join(dir, name)] and [path.basename(p)], [path.basename(p, ext)] *)
Variable path_join : string -> string -> string.
Variable path_basename : string -> option string -> string.
(** the instant the clock shows at its n-th reading *)
Variable clock : nat -> Z.
(** [new Date(s).getTime()]; [None] is [NaN], an invalid date *)
Variable Date_getTime : string -> option Z.
(** [Number(s)] for a string [s]; [None] is [NaN] *)
Variable StringToNumber : string -> option Q.
(** [Number(process.env.INVOICE_MATCH_MAX_DAYS || 120)] *)
Variable MAX_DATE_DIFF_DAYS : jsnumber.

Definition read_clock (w : World) : Z * World :=
  (clock (ticks w), {| files := files w; ticks := S (ticks w) |}).

Definition existsSync (path : string) (w : World) : bool :=
  bool_decide (is_Some (files w !! path)).

Definition writeFile (path : string) (f : File) (w : World) : World :=
  {| files := <[path := f]> (files w); ticks := ticks w |}.

Definition buildStatementId (meta : StatementMeta) (context : Source) (w : World)
  : string * World :=
  if truthy (meta_statementYear meta) && truthy (meta_statementNumber meta) then
    let accountSegment :=
      if nonempty (account_iban (meta_account meta))
      then slice_last 6 (account_iban (meta_account meta))
      else "account" in
    (accountSegment +:+ "-" +:+ template (meta_statementYear meta) +:+ "-" +:+
       padLeft (template (meta_statementNumber meta)) 3, w)
  else if truthy (entryName context) then
    (buildFileSafeName (path_basename (template (entryName context)) (Some ".pdf")), w)
  else if nonempty (originPath context) then
    (buildFileSafeName (path_basename (originPath context) (Some ".pdf")), w)
  else
    let '(now, w') := read_clock w in
    ("statement-" +:+ string_of_Z now, w').

(** [parseStatement], from the text that [parser.getText()] returns or the
    exception it throws. *)
Definition parseStatement (text : result string) (context : Source) (w : World)
  : result Statement * World :=
  match text with
  | Err m => (Err m, w)
  | Ok text =>
      let originalLines := split_lines text in
      let trimmedLines := trimmedLines text in
      match extractStatementMeta trimmedLines with
      | Err m => (Err m, w)
      | Ok statementMeta =>
          match extractOperations trimmedLines statementMeta context with
          | Err m => (Err m, w)
          | Ok operations =>
              let '(id, w1) := buildStatementId statementMeta context w in
              let '(now, w2) := read_clock w1 in
              (Ok {| statementId := id;
                     generatedAt := now;
                     source := {| source_type := source_type context;
                                  originPath := originPath context;
                                  entryName := or_null (entryName context) |};
                     account := meta_account statementMeta;
                     balances := meta_balances statementMeta;
                     statementNumber := meta_statementNumber statementMeta;
                     statementYear := meta_statementYear statementMeta;
                     operations := operations;
                     rawStatementLines := trimEnd <$> originalLines |}, w2)
          end
      end
  end.

Definition writeStatementJson (statement : Statement) (outputDir : string)
    (overwrite : bool) (w : World) : result string * World :=
  let baseName :=
    if nonempty (statementId statement) then statementId statement
    else buildFileSafeName
           (template (or_else (entryName (source statement))
                              (Some (originPath (source statement))))) in
  let fileName := baseName +:+ ".json" in
  let targetPath := path_join outputDir fileName in
  if negb overwrite && existsSync targetPath w then
    (Err ("File already exists at " +:+ targetPath +:+ ". Use --overwrite to replace it."), w)
  else (Ok targetPath, writeFile targetPath (StatementJson statement) w).

(** The body of the [try] of [processZipArchive] and [processSinglePdf]:
    parse, write, and the statement with its output path. *)
Definition processDocument (text : result string) (context : Source) (options : Options)
    (w : World) : result Processed * World :=
  match parseStatement text context w with
  | (Err m, w1) => (Err m, w1)
  | (Ok parsed, w1) =>
      match writeStatementJson parsed (outputDir options) (overwrite options) w1 with
      | (Err m, w2) => (Err m, w2)
      | (Ok outputPath, w2) => (Ok {| parsed := parsed; outputPath := outputPath |}, w2)
      end
  end.

Record BatchResult := {
  statements : list Processed;
  failures : list Failure;
}.


(** The loop of [processZipArchive] over the entries of the archive. *)
Fixpoint processZipEntries (zipPath : string) (options : Options) (entries : list ZipEntry)
    (acc : BatchResult) (w : World) : BatchResult * World :=
  match entries with
  | [] => (acc, w)
  | entry :: rest =>
      if ze_isDirectory entry then processZipEntries zipPath options rest acc w
      else if negb (endsWith (toLowerCase (ze_entryName entry)) ".pdf") then
        processZipEntries zipPath options rest acc w
      else
        let context := {| source_type := "zip"; originPath := zipPath;
                          entryName := Some (ze_entryName entry) |} in
        match processDocument (ze_text entry) context options w with
        | (Ok p, w') =>
            processZipEntries zipPath options rest
              {| statements := statements acc ++ [p]; failures := failures acc |} w'
        | (Err m, w') =>
            processZipEntries zipPath options rest
              {| statements := statements acc;
                 failures := failures acc ++
                   [{| failure_source := "zip"; failure_path := zipPath;
                       failure_entryName := Some (ze_entryName entry);
                       failure_error := m |}] |} w'
        end
  end.

Definition processZipArchive (zipPath : string) (entries : list ZipEntry)
    (options : Options) (w : World) : BatchResult * World :=
  processZipEntries zipPath options entries {| statements := []; failures := [] |} w.

(** [processSinglePdf], from the text of the file or the exception that
    reading or extracting it throws. *)
Definition processSinglePdf (pdfPath : string) (text : result string)
    (options : Options) (w : World) : BatchResult * World :=
  let context := {| source_type := "pdf"; originPath := pdfPath; entryName := None |} in
  match processDocument text context options w with
  | (Ok p, w') => ({| statements := [p]; failures := [] |}, w')
  | (Err m, w') =>
      ({| statements := [];
          failures := [{| failure_source := "pdf"; failure_path := pdfPath;
                          failure_entryName := None; failure_error := m |}] |}, w')
  end.

Definition index_entry (statement : Processed) (op : Operation) : IndexEntry :=
  {| ix_statementId := Some (statementId (parsed statement));
     ix_statementFile := Some (path_basename (outputPath statement) None);
     ix_accountIban := Some (account_iban (account (parsed statement)));
     ix_accountName := account_name (account (parsed statement));
     ix_statementYear := statementYear (parsed statement);
     ix_statementNumber := statementNumber (parsed statement);
     ix_sequence := Some (sequence op);
     ix_title := Some (title op);
     ix_bookingDate := bookingDate op;
     ix_executionDate := executionDate op;
     ix_valueDate := valueDate op;
     ix_amount := amount op;
     ix_currency := currency op;
     ix_direction := direction op;
     ix_communication := communication op;
     ix_bankReference := bankReference op;
     ix_orderReference := orderReference op;
     ix_counterpartyAccount := counterpartyAccount op;
     ix_counterpartyBic := counterpartyBic op;
     ix_counterpartyName := counterpartyName op;
     ix_counterpartyAddress := counterpartyAddress op |}.

(** The [operations] array that [emitAggregatedIndex] builds. *)
Definition aggregate (statements : list Processed) : list IndexEntry :=
  statement ← statements; index_entry statement <$> operations (parsed statement).

Definition indexPath (outputDir : string) : string :=
  path_join outputDir "operations-index.json".

Definition emitAggregatedIndex (statements : list Processed) (outputDir : string)
    (w : World) : World :=
  let operations := aggregate statements in
  let '(now, w1) := read_clock w in
  let indexPayload := {| index_generatedAt := now; index_operations := operations |} in
  writeFile (indexPath outputDir) (IndexJson indexPayload) w1.

(** The two loops of [main] over the archives and over the stand-alone
    PDF files. *)
Fixpoint processZipFiles (zipFiles : list (string * list ZipEntry)) (options : Options)
    (acc : BatchResult) (w : World) : BatchResult * World :=
  match zipFiles with
  | [] => (acc, w)
  | (zipPath, entries) :: rest =>
      let '(zipResults, w') := processZipArchive zipPath entries options w in
      processZipFiles rest options
        {| statements := statements acc ++ statements zipResults;
           failures := failures acc ++ failures zipResults |} w'
  end.

Fixpoint processPdfFiles (pdfFiles : list (string * result string)) (options : Options)
    (acc : BatchResult) (w : World) : BatchResult * World :=
  match pdfFiles with
  | [] => (acc, w)
  | (pdfPath, text) :: rest =>
      let '(pdfResults, w') := processSinglePdf pdfPath text options w in
      processPdfFiles rest options
        {| statements := statements acc ++ statements pdfResults;
           failures := failures acc ++ failures pdfResults |} w'
  end.

Record Run := {
  processedStatements : list Processed;
  run_failures : list Failure;
  exitCode : Z;
  world : World;
}.

(** [main] of the importer, from the sources that [collectSources] found
    (at least one archive or PDF file). *)
Definition import_main (zipFiles : list (string * list ZipEntry))
    (pdfFiles : list (string * result string)) (options : Options) (w : World) : Run :=
  let '(r1, w1) :=
    processZipFiles zipFiles options {| statements := []; failures := [] |} w in
  let '(r2, w2) := processPdfFiles pdfFiles options r1 w1 in
  let w3 :=
    match statements r2 with
    | [] => w2
    | _ :: _ => emitAggregatedIndex (statements r2) (outputDir options) w2
    end in
  {| processedStatements := statements r2;
     run_failures := failures r2;
     exitCode := match failures r2 with [] => 0 | _ :: _ => 1 end;
     world := w3 |}.



(** A statement without the instant of its parsing. *)
Definition erase_generatedAt (s : Statement) : Statement :=
  {| statementId := statementId s;
     generatedAt := 0;
     source := source s;
     account := account s;
     balances := balances s;
     statementNumber := statementNumber s;
     statementYear := statementYear s;
     operations := operations s;
     rawStatementLines := rawStatementLines s |}.

(** Two processed statements that differ at most in that instant. *)
Definition same_processed (p1 p2 : Processed) : Prop :=
  erase_generatedAt (parsed p1) = erase_generatedAt (parsed p2) ∧
  outputPath p1 = outputPath p2.

(** A document whose statement identifier can be derived from its name. *)
Definition named (context : Source) : Prop :=
  truthy (entryName context) || nonempty (originPath context) = true.

(** Two worlds in which the same files exist. *)
Definition same_existing (w1 w2 : World) : Prop :=
  dom (files w1) =@{gset string} dom (files w2).

(** Two worlds as far as a run with these options can tell them apart:
    with [--overwrite] no file is looked up. *)
Definition worlds_ok (options : Options) (w1 w2 : World) : Prop :=
  overwrite options = true ∨ same_existing w1 w2.

(** Two batch results that differ at most in the instants of parsing. *)
Definition batches_ok (b1 b2 : BatchResult) : Prop :=
  Forall2 same_processed (statements b1) (statements b2) ∧ failures b1 = failures b2.

(** ** The statement importer: reading the command line, finding the sources *)

(** [DEFAULT_OUTPUT_DIR = path.join('data', 'statements', 'pdf')] *)
Variable DEFAULT_OUTPUT_DIR : string.

Definition set_inputPath (v : string) (o : CliOptions) : CliOptions :=
  {| cli_inputPath := v;
     cli_outputDir := cli_outputDir o;
     cli_includeStandalonePdfs := cli_includeStandalonePdfs o;
     cli_overwrite := cli_overwrite o |}.

Definition set_outputDir (v : string) (o : CliOptions) : CliOptions :=
  {| cli_inputPath := cli_inputPath o;
     cli_outputDir := v;
     cli_includeStandalonePdfs := cli_includeStandalonePdfs o;
     cli_overwrite := cli_overwrite o |}.

Definition set_includeStandalonePdfs (v : bool) (o : CliOptions) : CliOptions :=
  {| cli_inputPath := cli_inputPath o;
     cli_outputDir := cli_outputDir o;
     cli_includeStandalonePdfs := v;
     cli_overwrite := cli_overwrite o |}.

Definition set_overwrite (v : bool) (o : CliOptions) : CliOptions :=
  {| cli_inputPath := cli_inputPath o;
     cli_outputDir := cli_outputDir o;
     cli_includeStandalonePdfs := cli_includeStandalonePdfs o;
     cli_overwrite := v |}.

(** The loop of [parseArgs], on the arguments from [i] on.  An option that
    takes a value takes the next argument, whatever it is; when that is
    missing or empty the option keeps the value it has. *)
Fixpoint parseArgs_loop (argv : list string) (options : CliOptions) : Cli CliOptions :=
  match argv with
  | [] => Parsed options
  | arg :: rest =>
      if String.eqb arg "--input" || String.eqb arg "--source" then
        match rest with
        | value :: rest' =>
            parseArgs_loop rest'
              (set_inputPath (if nonempty value then value else cli_inputPath options) options)
        | [] => Parsed options
        end
      else if String.eqb arg "--output" then
        match rest with
        | value :: rest' =>
            parseArgs_loop rest'
              (set_outputDir (if nonempty value then value else cli_outputDir options) options)
        | [] => Parsed options
        end
      else if String.eqb arg "--no-standalone-pdf" then
        parseArgs_loop rest (set_includeStandalonePdfs false options)
      else if String.eqb arg "--overwrite" then
        parseArgs_loop rest (set_overwrite true options)
      else if String.eqb arg "--help" || String.eqb arg "-h" then Exit 0
      else parseArgs_loop rest options
  end.

Definition parseArgs (argv : list string) : Cli CliOptions :=
  parseArgs_loop argv
    {| cli_inputPath := ".";
       cli_outputDir := DEFAULT_OUTPUT_DIR;
       cli_includeStandalonePdfs := true;
       cli_overwrite := false |}.

(** The part of the options that processing a document reads. *)
Definition processing_options (o : CliOptions) : Options :=
  {| outputDir := cli_outputDir o; overwrite := cli_overwrite o |}.

Definition push_zip (path : string) (found : Collections) : Collections :=
  {| found_zipFiles := found_zipFiles found ++ [path];
     found_pdfFiles := found_pdfFiles found |}.

Definition push_pdf (path : string) (found : Collections) : Collections :=
  {| found_zipFiles := found_zipFiles found;
     found_pdfFiles := found_pdfFiles found ++ [path] |}.

(** The body of the loop of [walk], for one entry of [directory]; a
    directory is walked in turn, with the entries that [readdir] returns
    for it. *)
Fixpoint walk_entry (includeStandalonePdfs : bool) (directory : string) (entry : Dirent)
    (found : Collections) : result Collections :=
  match entry with
  | DirentFile name =>
      if bool_decide (name ∈ SKIP_DIRECTORIES) then Ok found
      else
        let absolute := path_join directory name in
        if endsWith (toLowerCase name) ".zip" then Ok (push_zip absolute found)
        else if includeStandalonePdfs && endsWith (toLowerCase name) ".pdf"
        then Ok (push_pdf absolute found)
        else Ok found
  | DirentDirectory name content =>
      if bool_decide (name ∈ SKIP_DIRECTORIES) then Ok found
      else
        match content with
        | Err m => Err m
        | Ok entries =>
            (fix walk_entries (entries : list Dirent) (found : Collections) :=
               match entries with
               | [] => Ok found
               | entry :: rest =>
                   match walk_entry includeStandalonePdfs (path_join directory name)
                           entry found with
                   | Ok found' => walk_entries rest found'
                   | Err m => Err m
                   end
               end) entries found
        end
  | DirentOther name => Ok found
  end.

(** The loop of [walk] over the entries of [directory]. *)
Fixpoint walk_entries (includeStandalonePdfs : bool) (directory : string)
    (entries : list Dirent) (found : Collections) : result Collections :=
  match entries with
  | [] => Ok found
  | entry :: rest =>
      match walk_entry includeStandalonePdfs directory entry found with
      | Ok found' => walk_entries includeStandalonePdfs directory rest found'
      | Err m => Err m
      end
  end.

(** [walk(directory)], from what [readdir(directory)] returns or throws. *)
Definition walk (includeStandalonePdfs : bool) (directory : string)
    (content : result (list Dirent)) (found : Collections) : result Collections :=
  match content with
  | Err m => Err m
  | Ok entries => walk_entries includeStandalonePdfs directory entries found
  end.

Definition collectSources (rootPath : string) (stat : Stats) (includeStandalonePdfs : bool)
  : result Collections :=
  match stat with
  | StatFile =>
      if endsWith (toLowerCase rootPath) ".zip"
      then Ok {| found_zipFiles := [rootPath]; found_pdfFiles := [] |}
      else if includeStandalonePdfs && endsWith (toLowerCase rootPath) ".pdf"
      then Ok {| found_zipFiles := []; found_pdfFiles := [rootPath] |}
      else Ok {| found_zipFiles := []; found_pdfFiles := [] |}
  | StatOther content =>
      walk includeStandalonePdfs rootPath content
        {| found_zipFiles := []; found_pdfFiles := [] |}
  end.

(** A file below [directory] that the walk reaches: its path and its name.
    The walk does not go into a directory named in [SKIP_DIRECTORIES], nor
    look at a file so named. *)
Inductive reached_file : string -> list Dirent -> string -> string -> Prop :=
  | reached_here directory entries name :
      DirentFile name ∈ entries -> name ∉ SKIP_DIRECTORIES ->
      reached_file directory entries (path_join directory name) name
  | reached_below directory entries name content path file :
      DirentDirectory name (Ok content) ∈ entries -> name ∉ SKIP_DIRECTORIES ->
      reached_file (path_join directory name) content path file ->
      reached_file directory entries path file.

(** What one entry adds to the files found. *)
Definition entry_adds (includeStandalonePdfs : bool) (entry : Dirent) : Prop :=
  ∀ directory found found',
    walk_entry includeStandalonePdfs directory entry found = Ok found' ->
    (∀ path, path ∈ found_zipFiles found' ↔
       path ∈ found_zipFiles found ∨
       ∃ name, reached_file directory [entry] path name ∧
               endsWith (toLowerCase name) ".zip" = true) ∧
    (∀ path, path ∈ found_pdfFiles found' ↔
       path ∈ found_pdfFiles found ∨
       (includeStandalonePdfs = true ∧
        ∃ name, reached_file directory [entry] path name ∧
                endsWith (toLowerCase name) ".zip" = false ∧
                endsWith (toLowerCase name) ".pdf" = true)).

(** What the two loops of [main] keep, without [--overwrite]: the files
    that were there are there unchanged, and every statement processed
    is in the file of its output path, which was not there before; no two
    statements have the same output path. *)
Definition written (w0 : World) (processed : list Processed) (w : World) : Prop :=
  files w0 ⊆ files w ∧
  NoDup (outputPath <$> processed) ∧
  ∀ p, p ∈ processed ->
    files w0 !! outputPath p = None ∧
    files w !! outputPath p = Some (StatementJson (parsed p)).

(** ** The invoice matcher *)

Definition OPEN_STATUS_IDS : list Z := [1; 2; 3; 4; 5].

Definition MAX_SAFE_INTEGER : Q := inject_Z 9007199254740991.

Definition roundCurrency (value : Q) : Q := inject_Z (Math_round (value * 100)) / 100.

Definition sanitize (str : option string) : string :=
  trim (template (or_else str (Some EmptyString))).

Definition normalize (str : option string) : string :=
  toUpperCase (remove_spaces (sanitize str)).

Definition is_token_char (c : ascii) : bool := is_lower c || is_digit c.

Definition tokenize (str : option string) : list string :=
  List.filter nonempty
    (split_ws (trim (replace_runs (fun c => negb (is_token_char c)) " "
                       (toLowerCase (sanitize str))))).

Definition diffDays (a b : option Z) : Days :=
  match a, b with
  | Some ta, Some tb => Finite (Qabs (inject_Z (ta - tb) / inject_Z (24 * 60 * 60 * 1000)))
  | _, _ => Infinity
  end.

(** An operation of the index with its amount and booking date as
    [loadOperations] sets them. *)
Definition loaded (op : IndexEntry) : IndexEntry :=
  {| ix_statementId := ix_statementId op;
     ix_statementFile := ix_statementFile op;
     ix_accountIban := ix_accountIban op;
     ix_accountName := ix_accountName op;
     ix_statementYear := ix_statementYear op;
     ix_statementNumber := ix_statementNumber op;
     ix_sequence := ix_sequence op;
     ix_title := ix_title op;
     ix_bookingDate := or_null (or_else (ix_bookingDate op) (ix_valueDate op));
     ix_executionDate := ix_executionDate op;
     ix_valueDate := ix_valueDate op;
     ix_amount := Some (default 0%Q (ix_amount op));
     ix_currency := ix_currency op;
     ix_direction := ix_direction op;
     ix_communication := ix_communication op;
     ix_bankReference := ix_bankReference op;
     ix_orderReference := ix_orderReference op;
     ix_counterpartyAccount := ix_counterpartyAccount op;
     ix_counterpartyBic := ix_counterpartyBic op;
     ix_counterpartyName := ix_counterpartyName op;
     ix_counterpartyAddress := ix_counterpartyAddress op |}.

Definition is_credit (op : IndexEntry) : bool :=
  String.eqb (toLowerCase (sanitize (ix_direction op))) "credit".

(** [loadOperations], from the content of the index file when it exists. *)
Definition loadOperations (indexPath : string) (file : option IndexPayload)
  : result (list IndexEntry) :=
  match file with
  | None =>
      Err ("Statements index not found at " +:+ indexPath +:+ ". Run the importer first.")
  | Some data =>
      Ok (loaded <$>
            List.filter (fun op => is_credit op && bool_decide (is_Some (ix_amount op)))
              (index_operations data))
  end.

Definition buildReferenceString (op : IndexEntry) : string :=
  normalize
    (Some (join " " (template <$>
             List.filter truthy
               [ix_communication op; ix_orderReference op; ix_bankReference op]))).

Definition computeNameScore (invoiceClientName : string) (counterpartyName : option string)
  : Z :=
  if negb (nonempty invoiceClientName) || negb (truthy counterpartyName) then 0
  else
    let invoiceTokens : gset string := list_to_set (tokenize (Some invoiceClientName)) in
    let counterTokens := tokenize counterpartyName in
    if bool_decide (invoiceTokens = ∅) || bool_decide (counterTokens = []) then 0
    else Z.of_nat (length (List.filter (fun token => bool_decide (token ∈ invoiceTokens))
                             counterTokens)).

Definition date_bonus (daysDiff : option Q) : Q :=
  match daysDiff with
  | Some d =>
      if Qleb d 2 then 30
      else if Qleb d 7 then 25
      else if Qleb d 14 then 22
      else if Qleb d 30 then 15
      else if Qleb d 60 then 10
      else if Qleb d 90 then 6
      else if Qleb d 120 then 4
      else 1 - Qmin 10 (Qmax 0 (d - 120) * (1 # 10))
  | None => 5
  end%Q.

Definition computeConfidence (daysDiff : option Q) (refScore nameScore : Z)
    (targetLabel : string) : Z :=
  let score := (50 + date_bonus daysDiff)%Q in
  let score :=
    if 3 <=? refScore then (score + 15)%Q
    else if refScore =? 2 then (score + 12)%Q
    else if refScore =? 1 then (score + 8)%Q
    else score in
  let score :=
    if 3 <=? nameScore then (score + 10)%Q
    else if nameScore =? 2 then (score + 8)%Q
    else if nameScore =? 1 then (score + 6)%Q
    else if nameScore =? 0 then (score - 2)%Q
    else score in
  let score :=
    if nonempty targetLabel && includes (toLowerCase targetLabel) "partial"
    then (score - 5)%Q else score in
  Z.max 10 (Z.min 99 (Math_round score)).

(** The comparator of the final sort. *)
Definition compareCandidates (a b : Candidate) : Q :=
  let dayA := default MAX_SAFE_INTEGER (daysDiff a) in
  let dayB := default MAX_SAFE_INTEGER (daysDiff b) in
  if negb (Qeq_bool dayA dayB) then (dayA - dayB)%Q
  else if negb (refScore a =? refScore b) then inject_Z (refScore b - refScore a)
  else if negb (nameScore a =? nameScore b) then inject_Z (nameScore b - nameScore a)
  else 0%Q.

(** [Array.prototype.sort] with a comparator: the sort is stable, and for
    a comparator that orders the elements consistently its result is the
    one that stable insertion computes. *)
Fixpoint sort_insert {A} (cmp : A -> A -> Q) (x : A) (l : list A) : list A :=
  match l with
  | [] => [x]
  | y :: l' => if Qleb (cmp x y) 0 then x :: l else y :: sort_insert cmp x l'
  end.

Fixpoint sort {A} (cmp : A -> A -> Q) (l : list A) : list A :=
  match l with
  | [] => []
  | x :: l' => sort_insert cmp x (sort cmp l')
  end.

Definition parseNumber (value : jsval) : option Q :=
  match value with
  | JNull | JUndefined => None
  | JStr s => if nonempty s then StringToNumber s else None
  | JNum q => Some q
  end.

Definition parseDate (value : option string) : option Z :=
  if truthy value then Date_getTime (template value) else None.

Definition invoiceDateOf (invoice : Invoice) : option Z :=
  match parseDate (invoice_date invoice) with
  | Some d => Some d
  | None => parseDate (due_date invoice)
  end.

Definition invoiceNumberOf (invoice : Invoice) : string :=
  sanitize (or_else (invoice_number invoice) (number invoice)).

Definition clientNameOf (invoice : Invoice) : string :=
  match client invoice with
  | Some c => template (or_else (or_else (display_name c) (client_name c)) (Some EmptyString))
  | None => EmptyString
  end.

Definition targetsOf (invoice : Invoice) : list Target :=
  let amount := default 0%Q (parseNumber (inv_amount invoice)) in
  let balance := default 0%Q (parseNumber (inv_balance invoice)) in
  let paidAmount := (amount - balance)%Q in
  (if Qltb 0 amount
   then [{| target_value := roundCurrency amount; target_label := "invoice amount" |}]
   else []) ++
  (if Qltb (1 # 100) paidAmount
   then [{| target_value := roundCurrency paidAmount;
            target_label := "recorded partial payment" |}]
   else []).

Definition operationKey (op : IndexEntry) (target : Target) : string :=
  template (ix_statementId op) +:+ ":" +:+
  template (or_else (or_else (ix_sequence op) (ix_bankReference op)) (ix_bookingDate op))
  +:+ ":" +:+ target_label target.

Definition refScoreOf (invoiceNumber : string) (op : IndexEntry) : Z :=
  let invoiceNumberDigits :=
    if nonempty invoiceNumber then filter_chars is_digit invoiceNumber else EmptyString in
  let referenceString := buildReferenceString op in
  if nonempty invoiceNumberDigits && includes referenceString invoiceNumberDigits then 3
  else if nonempty invoiceNumber &&
          includes referenceString (normalize (Some invoiceNumber)) then 2
  else 0.

(** Whether the operation passes the amount test of [visit] *)
Definition amount_matches (op : IndexEntry) (target : Target) : bool :=
  let opAmount := roundCurrency (default 0%Q (ix_amount op)) in
  negb (Qltb (1 # 1000) (Qabs (opAmount - target_value target))).

(** [diffDays(invoiceDate, parseDate(operation.bookingDate))] *)
Definition daysOf (invoice : Invoice) (op : IndexEntry) : Days :=
  diffDays (invoiceDateOf invoice) (parseDate (ix_bookingDate op)).

(** The candidate that [visit] builds. *)
Definition candidateOf (invoice : Invoice) (target : Target) (op : IndexEntry)
  : Candidate :=
  let refScore := refScoreOf (invoiceNumberOf invoice) op in
  let nameScore := computeNameScore (clientNameOf invoice) (ix_counterpartyName op) in
  let daysDiff := match daysOf invoice op with Infinity => None | Finite d => Some d end in
  {| targetLabel := target_label target;
     operation := op;
     daysDiff := daysDiff;
     refScore := refScore;
     nameScore := nameScore;
     confidence := computeConfidence daysDiff refScore nameScore (target_label target) |}.

(** The body of the inner [forEach]: one operation against one target. *)
Definition visit (invoice : Invoice) (target : Target)
    (st : gset string * list Candidate) (op : IndexEntry)
  : gset string * list Candidate :=
  let '(seenOperationIds, candidates) := st in
  if negb (amount_matches op target) then st
  else
    let operationKey := operationKey op target in
    if bool_decide (operationKey ∈ seenOperationIds) then st
    else if days_gt (daysOf invoice op) MAX_DATE_DIFF_DAYS then st
    else ({[ operationKey ]} ∪ seenOperationIds,
          candidates ++ [candidateOf invoice target op]).

(** The two nested [forEach]: the candidates before they are sorted. *)
Definition collectCandidates (invoice : Invoice) (operations : list IndexEntry)
  : gset string * list Candidate :=
  foldl (fun st target => foldl (visit invoice target) st operations)
    (∅, []) (targetsOf invoice).

Definition findMatchesForInvoice (invoice : Invoice) (operations : list IndexEntry)
  : list Candidate :=
  take 5 (sort compareCandidates (collectCandidates invoice operations).2).

(** The filter of [fetchAllInvoices] on the invoices of a page. *)
Definition is_open_invoice (invoice : Invoice) : bool :=
  let statusId :=
    match invoice_status_id invoice with
    | Some s => if s =? 0 then default 0 (status_id invoice) else s
    | None => default 0 (status_id invoice)
    end in
  bool_decide (statusId ∈ OPEN_STATUS_IDS) &&
  match parseNumber (inv_balance invoice) with
  | Some balance => Qltb (1 # 10000) balance
  | None => false
  end.

Definition requireEnv (name : string) (env : gmap string string) : result string :=
  match env !! name with
  | Some value =>
      if nonempty value then Ok value
      else Err ("Missing required environment variable " +:+ name)
  | None => Err ("Missing required environment variable " +:+ name)
  end.

(** [main] of the matcher, from the invoices the service returned: the
    invoices that have candidates, each with its candidates.  [Err] is
    an exit with code 1 and this message. *)
Definition match_main (env : gmap string string) (indexPath : string)
    (indexFile : option IndexPayload) (pageData : list Invoice) (since : option string)
  : result (list (Invoice * list Candidate)) :=
  token ← requireEnv "INVOICE_NINJA_KEY" env;
  operations ← loadOperations indexPath indexFile;
  match operations with
  | [] => Err "No credit operations found in statements index."
  | _ :: _ =>
      let invoices := List.filter is_open_invoice pageData in
      let filteredInvoices :=
        match parseDate since with
        | Some sinceDate =>
            List.filter
              (fun invoice =>
                 match invoiceDateOf invoice with
                 | Some invDate => sinceDate <=? invDate
                 | None => false
                 end) invoices
        | None => invoices
        end in
      Ok (List.filter (fun r => bool_decide (r.2 <> []))
            ((fun invoice => (invoice, findMatchesForInvoice invoice operations))
               <$> filteredInvoices))
  end.

Definition within_window (invoice : Invoice) (op : IndexEntry) : bool :=
  negb (days_gt (daysOf invoice op) MAX_DATE_DIFF_DAYS).

(** The key under which [visit] records a candidate. *)
Definition candidateKey (c : Candidate) : string :=
  operationKey (operation c) {| target_value := 0; target_label := targetLabel c |}.

(** A candidate of the invoice: built by [visit] from a target of the
    invoice and an operation of the index that pass the two tests. *)
Definition candidate_of_invoice (invoice : Invoice) (operations : list IndexEntry)
    (c : Candidate) : Prop :=
  ∃ target op,
    target ∈ targetsOf invoice ∧ op ∈ operations ∧
    amount_matches op target = true ∧ within_window invoice op = true ∧
    c = candidateOf invoice target op.

(** The state of the two loops: the keys seen are the keys of the
    candidates, no key occurs twice, every candidate is one of the
    invoice. *)
Definition state_ok (invoice : Invoice) (operations : list IndexEntry)
    (st : gset string * list Candidate) : Prop :=
  (∀ k, k ∈ st.1 ↔ k ∈ candidateKey <$> st.2) ∧
  NoDup (candidateKey <$> st.2) ∧
  Forall (candidate_of_invoice invoice operations) st.2.




(** The day difference that the comparator of the sort reads: a missing
    one counts as [Number.MAX_SAFE_INTEGER]. *)
Definition dayKey (c : Candidate) : Q := default MAX_SAFE_INTEGER (daysDiff c).

(** The order of the comparator: by day difference, the smaller first;
    then by reference score, the higher first; then by name score, the
    higher first. *)
Definition ranks_before (a b : Candidate) : Prop :=
  (dayKey a < dayKey b)%Q ∨
  ((dayKey a == dayKey b)%Q ∧
   (refScore b < refScore a ∨ (refScore a = refScore b ∧ nameScore b <= nameScore a))).

(** ** The invoice matcher: command line and invoices *)

(** The options that [parseOptions] reads; [None] is the [NaN] of
    [perPage] and the [null] of [since]. *)
Record MatchOptions := {
  opt_perPage : option Q;
  opt_insecure : bool;
  opt_verbose : bool;
  opt_since : option string;
}.

Definition set_perPage (v : option Q) (o : MatchOptions) : MatchOptions :=
  {| opt_perPage := v;
     opt_insecure := opt_insecure o;
     opt_verbose := opt_verbose o;
     opt_since := opt_since o |}.

Definition set_insecure (v : bool) (o : MatchOptions) : MatchOptions :=
  {| opt_perPage := opt_perPage o;
     opt_insecure := v;
     opt_verbose := opt_verbose o;
     opt_since := opt_since o |}.

Definition set_verbose (v : bool) (o : MatchOptions) : MatchOptions :=
  {| opt_perPage := opt_perPage o;
     opt_insecure := opt_insecure o;
     opt_verbose := v;
     opt_since := opt_since o |}.

Definition set_since (v : option string) (o : MatchOptions) : MatchOptions :=
  {| opt_perPage := opt_perPage o;
     opt_insecure := opt_insecure o;
     opt_verbose := opt_verbose o;
     opt_since := v |}.

(** [Number(s)] of a string that may be [undefined], which gives [NaN] *)
Definition Number_of (v : option string) : option Q :=
  match v with
  | Some s => StringToNumber s
  | None => None
  end.

(** The loop of [parseOptions], on the arguments from [i] on. *)
Fixpoint parseOptions_loop (argv : list string) (opts : MatchOptions) : Cli MatchOptions :=
  match argv with
  | [] => Parsed opts
  | arg :: rest =>
      if String.eqb arg "--per-page" then
        match rest with
        | value :: rest' =>
            parseOptions_loop rest'
              (set_perPage
                 (if nonempty value then StringToNumber value else opt_perPage opts) opts)
        | [] => Parsed opts
        end
      else if startsWith arg "--per-page=" then
        parseOptions_loop rest (set_perPage (Number_of (split "=" arg !! 1%nat)) opts)
      else if String.eqb arg "--insecure" then
        parseOptions_loop rest (set_insecure true opts)
      else if String.eqb arg "--verbose" then
        parseOptions_loop rest (set_verbose true opts)
      else if String.eqb arg "--since" then
        match rest with
        | value :: rest' => parseOptions_loop rest' (set_since (or_null (Some value)) opts)
        | [] => Parsed (set_since None opts)
        end
      else if startsWith arg "--since=" then
        parseOptions_loop rest (set_since (or_null (split "=" arg !! 1%nat)) opts)
      else if String.eqb arg "--help" || String.eqb arg "-h" then Exit 0
      else parseOptions_loop rest opts
  end.

(** [parseOptions], with the environment of the process. *)
Definition parseOptions (env : gmap string string) (argv : list string)
  : Cli MatchOptions :=
  parseOptions_loop argv
    {| opt_perPage :=
         if truthy (env !! "INVOICE_FETCH_PER_PAGE")
         then Number_of (env !! "INVOICE_FETCH_PER_PAGE") else Some 200%Q;
       opt_insecure :=
         bool_decide (env !! "INVOICE_NINJA_ALLOW_INSECURE" = Some "1");
       opt_verbose := false;
       opt_since := or_null (env !! "INVOICE_MATCH_SINCE") |}.

(** The body of a response of the invoicing service, as
    [fetchAllInvoices] reads it: [payload.data] when it is an array, and
    [payload.meta.pagination] when there is one, with its [total_pages]
    when that is a number. *)
Record Pagination := {
  total_pages : option Q;
}.

Record InvoicePage := {
  page_data : option (list Invoice);
  page_pagination : option Pagination;
}.

(** [pagination.total_pages || totalPages] *)
Definition total_pages_or (pagination : Pagination) (totalPages : Q) : Q :=
  match total_pages pagination with
  | Some t => if Qeq_bool t 0 then totalPages else t
  | None => totalPages
  end.

(** The loop of [fetchAllInvoices].  [responses page] is what the request
    for that page returns ([response.data], which may be missing) or the
    exception it throws; the n-th request is the one for page n.  The
    loop goes on for as long as the service announces more pages: [None]
    is a loop that has not ended within [fuel] requests. *)
Fixpoint fetchAllInvoices_loop (responses : Z -> result (option InvoicePage))
    (fuel : nat) (currentPage : Z) (totalPages : Q) (invoices : list Invoice)
  : option (result (list Invoice)) :=
  if negb (Qleb (inject_Z currentPage) totalPages) then Some (Ok invoices)
  else
    match fuel with
    | O => None
    | S fuel' =>
        match responses currentPage with
        | Err m => Some (Err m)
        | Ok data =>
            let payload :=
              default {| page_data := None; page_pagination := None |} data in
            let pageData := default [] (page_data payload) in
            let invoices' := invoices ++ List.filter is_open_invoice pageData in
            let totalPages' :=
              match page_pagination payload with
              | Some pagination => total_pages_or pagination totalPages
              | None => inject_Z currentPage
              end in
            fetchAllInvoices_loop responses fuel' (currentPage + 1) totalPages' invoices'
        end
    end.

Definition fetchAllInvoices (responses : Z -> result (option InvoicePage)) (fuel : nat)
  : option (result (list Invoice)) :=
  fetchAllInvoices_loop responses fuel 1 1 [].

(** The invoices of the pages [1] to [n], in the order of the pages. *)
Definition pages_data (responses : Z -> result (option InvoicePage)) (n : Z)
  : list Invoice :=
  page ← seqZ 1 n;
  match responses page with
  | Ok (Some payload) => default [] (page_data payload)
  | _ => []
  end.

(** ** Instances of the host functions, for the examples *)

(** The number of days from 1970-01-01 to a date of the proleptic
    Gregorian calendar. *)
Definition days_from_civil (y m d : Z) : Z :=
  let y' := if m <=? 2 then y - 1 else y in
  let era := y' / 400 in
  let yoe := y' - era * 400 in
  let doy := (153 * (if 2 <? m then m - 3 else m + 9) + 2) / 5 + d - 1 in
  let doe := yoe * 365 + yoe / 4 - yoe / 100 + doy in
  era * 146097 + doe - 719468.

Definition days_in_month (y m : Z) : Z :=
  if m =? 2 then
    if ((y mod 4 =? 0) && negb (y mod 100 =? 0)) || (y mod 400 =? 0) then 29 else 28
  else if (m =? 4) || (m =? 6) || (m =? 9) || (m =? 11) then 30
  else 31.

(** [new Date(s).getTime()] on the date-only form [YYYY-MM-DD] of a valid
    calendar date: midnight UTC of that day.  Every other string is taken
    as an invalid date. *)
Definition isoDate_getTime (s : string) : option Z :=
  '(ys, r1) ← digitsN 4 s;
  r2 ← expect "-" r1;
  '(ms, r3) ← digitsN 2 r2;
  r4 ← expect "-" r3;
  '(ds, r5) ← digitsN 2 r4;
  let y := digits_value ys in
  let m := digits_value ms in
  let d := digits_value ds in
  if negb (nonempty r5) && (1 <=? m) && (m <=? 12) && (1 <=? d) && (d <=? days_in_month y m)
  then Some (days_from_civil y m d * 86400000)
  else None.

(** [Number(s)] on a plain decimal literal; every other string is taken
    as [NaN]. *)
Definition decimal_StringToNumber (s : string) : option Q :=
  match span is_digit s with
  | (ip, EmptyString) => if nonempty ip then parseFloat s else None
  | (ip, String c r) =>
      if Ascii.eqb c "." && all_chars is_digit r && (nonempty ip || nonempty r)
      then parseFloat s else None
  end.

(** Path functions on plain names without [.] and [..] segments. *)
Definition simple_join (dir name : string) : string := dir +:+ "/" +:+ name.

Definition simple_basename (path : string) (ext : option string) : string :=
  let name := default EmptyString (last (split "/" path)) in
  match ext with
  | Some e =>
      if endsWith name e && negb (String.eqb name e)
      then slice_drop_last (String.length e) name else name
  | None => name
  end.

Definition fixed_clock (n : nat) : Z := 1700000000000 + Z.of_nat n.

(** ** Examples *)

Definition newline : string := String "010" EmptyString.

(** A credit transfer of 1500.00 on the account of the examples. *)
Definition example_entry (sequence : string) (bookingDate valueDate : option string)
  : IndexEntry :=
  {| ix_statementId := Some "547034-2024-012";
     ix_statementFile := Some "547034-2024-012.json";
     ix_accountIban := Some "BE68539007547034";
     ix_accountName := Some "ACME SRL";
     ix_statementYear := Some "2024";
     ix_statementNumber := Some "012";
     ix_sequence := Some sequence;
     ix_title := Some "SEPA CREDIT TRANSFER";
     ix_bookingDate := bookingDate;
     ix_executionDate := None;
     ix_valueDate := valueDate;
     ix_amount := Some 1500%Q;
     ix_currency := Some "EUR";
     ix_direction := Some "credit";
     ix_communication := Some "INV 220006";
     ix_bankReference := None;
     ix_orderReference := None;
     ix_counterpartyAccount := None;
     ix_counterpartyBic := None;
     ix_counterpartyName := Some "Dupont Jean";
     ix_counterpartyAddress := None |}.

Definition example_operation : IndexEntry :=
  example_entry "0015" (Some "2024-04-01") (Some "2024-04-04").

(** An open invoice of 1500.00, dated 2024-04-01. *)
Definition example_invoice (amount balance : jsval) (invoice_date : option string)
  : Invoice :=
  {| invoice_status_id := None;
     status_id := Some 2;
     inv_amount := amount;
     inv_balance := balance;
     invoice_date := invoice_date;
     due_date := None;
     invoice_number := None;
     number := Some "220006";
     client := Some {| display_name := Some "Jean Dupont"; client_name := None |} |}.

Definition open_invoice : Invoice :=
  example_invoice (JNum 1500) (JNum 1500) (Some "2024-04-01").

Definition invoice_amount_target : Target :=
  {| target_value := roundCurrency 1500; target_label := "invoice amount" |}.

Definition example_env : gmap string string :=
  {[ "INVOICE_NINJA_KEY" := "secret" ]}.

Definition example_index : IndexPayload :=
  {| index_generatedAt := 1700000000000;
     index_operations := [example_operation] |}.

(** A statement with one operation whose value line carries a zero amount. *)
Definition zero_amount_statement : string :=
  String.concat newline
    ["ACME SRL"; "BE68 5390 0754 7034 EUR"; "BIC GKCCBEBB";
     "Extrait N° 2024 - 013"; "N° Type d'opération"; "Date"; "Valeur Montant";
     "01-04-2024"; "0001 FRAIS DE GESTION"; "01-04-2024 0,00 +";
     "Solde actuel au 30-04-2024 1.234,56 +"].

(** A statement with one credit of 1500.00. *)
Definition credit_statement : string :=
  String.concat newline
    ["ACME SRL"; "BE68 5390 0754 7034 EUR"; "BIC GKCCBEBB";
     "Extrait N° 2024 - 012"; "N° Type d'opération"; "Date"; "Valeur Montant";
     "01-04-2024"; "0015 SEPA CREDIT TRANSFER"; "Communication: INV 220006";
     "Dupont Jean"; "04-04 1500,00 +";
     "Solde actuel au 30-04-2024 1.234,56 +"].

(** A document without any line in the shape of an IBAN. *)
Definition anchorless_statement : string :=
  String.concat newline ["Cher client,"; "N° Type d'opération"; "0001 FRAIS"].


Definition empty_world : World := {| files := ∅; ticks := 0 |}.

Definition example_options : Options :=
  {| outputDir := "data/statements/pdf"; overwrite := true |}.

Definition anchorless_entry : ZipEntry :=
  {| ze_entryName := "2024-011.pdf"; ze_isDirectory := false;
     ze_text := Ok anchorless_statement |}.

Definition credit_entry : ZipEntry :=
  {| ze_entryName := "2024-012.pdf"; ze_isDirectory := false;
     ze_text := Ok credit_statement |}.

Definition example_zipFiles : list (string * list ZipEntry) :=
  [("statements.zip", [anchorless_entry; credit_entry])].

Definition example_pdfFiles : list (string * result string) :=
  [("statements/extra.pdf", Ok zero_amount_statement)].

Definition later_clock (n : nat) : Z := 1800000000000 + 7 * Z.of_nat n.

(** The options of a run that replaces no file. *)
Definition keep_options : Options :=
  {| outputDir := "data/statements/pdf"; overwrite := false |}.

(** An output directory that holds a file already. *)
Definition used_world : World :=
  {| files := {[ "data/statements/pdf/notes.txt" := OtherFile ]}; ticks := 0 |}.

(** A directory with an archive, a repository that cannot be read, and a
    sub-directory with a PDF file, a link and a text file. *)
Definition example_tree : list Dirent :=
  [DirentFile "2024-01.ZIP";
   DirentDirectory ".git" (Err "EACCES: permission denied");
   DirentDirectory "2024"
     (Ok [DirentFile "extra.pdf"; DirentOther "latest"; DirentFile "notes.txt"])].

(** A paid invoice: its balance is zero. *)
Definition paid_invoice : Invoice :=
  example_invoice (JNum 800) (JNum 0) (Some "2024-03-01").

(** A service that announces two pages, with an invoice on each. *)
Definition example_responses (page : Z) : result (option InvoicePage) :=
  if page =? 1 then
    Ok (Some {| page_data := Some [open_invoice];
                page_pagination := Some {| total_pages := Some 2%Q |} |})
  else if page =? 2 then
    Ok (Some {| page_data := Some [paid_invoice];
                page_pagination := Some {| total_pages := Some 2%Q |} |})
  else Err "Request failed with status code 404".



(** * Properties *)

Set Default Proof Using "Type".

(** ** Numbers, lists and the sort *)

Lemma Qleb_true (x y : Q) : Qleb x y = true <-> (x <= y)%Q.
Proof. apply Qle_bool_iff. Qed.

Lemma Qltb_true (x y : Q) : Qltb x y = true <-> (x < y)%Q.
Proof.
  unfold Qltb. rewrite negb_true_iff. split.
  - intros H. apply Qnot_le_lt. intros Hle. apply Qle_bool_iff in Hle. congruence.
  - intros H. destruct (Qle_bool y x) eqn:E; [|reflexivity].
    apply Qle_bool_iff in E. exfalso. apply (Qlt_not_le _ _ H E).
Qed.

Lemma Qltb_false (x y : Q) : Qltb x y = false <-> (y <= x)%Q.
Proof.
  unfold Qltb. rewrite negb_false_iff. apply Qle_bool_iff.
Qed.

Lemma sort_insert_perm {A} (cmp : A -> A -> Q) (x : A) (l : list A) :
  sort_insert cmp x l ≡ₚ x :: l.
Proof.
  induction l as [|y l IH]; simpl; [reflexivity|].
  destruct (Qleb (cmp x y) 0); [reflexivity|].
  rewrite IH. apply Permutation_swap.
Qed.

Lemma sort_perm {A} (cmp : A -> A -> Q) (l : list A) : sort cmp l ≡ₚ l.
Proof.
  induction l as [|x l IH]; simpl; [reflexivity|].
  rewrite sort_insert_perm. by rewrite IH.
Qed.

Lemma elem_of_take_sort {A} (cmp : A -> A -> Q) (n : nat) (l : list A) (x : A) :
  x ∈ take n (sort cmp l) -> x ∈ l.
Proof.
  intros H. rewrite <- (sort_perm cmp l).
  apply elem_of_take in H as (i & Hi & _). by eapply list_elem_of_lookup_2.
Qed.

Lemma NoDup_take_sort {A B} (f : A -> B) (cmp : A -> A -> Q) (n : nat) (l : list A) :
  NoDup (f <$> l) -> NoDup (f <$> take n (sort cmp l)).
Proof.
  intros H. rewrite fmap_take.
  eapply sublist_NoDup; [|apply sublist_take].
  by rewrite (sort_perm cmp l).
Qed.

(** ** The invoice matcher *)

(** What [visit] does, in one equation. *)
Lemma visit_eq invoice target seen candidates op :
  visit invoice target (seen, candidates) op =
    if amount_matches op target
       && negb (bool_decide (operationKey op target ∈ seen))
       && within_window invoice op
    then ({[ operationKey op target ]} ∪ seen, candidates ++ [candidateOf invoice target op])
    else (seen, candidates).
Proof.
  unfold visit, within_window.
  destruct (amount_matches op target); simpl; [|reflexivity].
  destruct (bool_decide _); simpl; [reflexivity|].
  destruct (days_gt _ _); reflexivity.
Qed.

Lemma candidateKey_candidateOf invoice target op :
  candidateKey (candidateOf invoice target op) = operationKey op target.
Proof. reflexivity. Qed.

Lemma visit_ok invoice operations target st op :
  target ∈ targetsOf invoice -> op ∈ operations ->
  state_ok invoice operations st ->
  state_ok invoice operations (visit invoice target st op).
Proof.
  intros Ht Hop. destruct st as [seen candidates]. intros (Hseen & Hnd & Hall).
  rewrite visit_eq.
  destruct (amount_matches op target) eqn:Ha; simpl; [|by split].
  destruct (bool_decide _) eqn:Hk; simpl; [by split|].
  destruct (within_window invoice op) eqn:Hw; simpl; [|by split].
  apply bool_decide_eq_false in Hk. cbn [fst snd] in Hseen, Hnd, Hall.
  split; [|split]; cbn [fst snd].
  - intros k. rewrite fmap_app, elem_of_union, elem_of_singleton, elem_of_app.
    rewrite list_fmap_singleton, list_elem_of_singleton, Hseen.
    rewrite candidateKey_candidateOf.
    split; (intros [?|?]; [by right|by left]).
  - rewrite fmap_app. apply NoDup_app. split; [done|]. split.
    + intros k Hin. rewrite list_fmap_singleton, list_elem_of_singleton.
      rewrite candidateKey_candidateOf. intros ->.
      apply Hk, Hseen, Hin.
    + apply NoDup_singleton.
  - apply Forall_app. split; [done|]. apply Forall_singleton.
    exists target, op. by repeat split.
Qed.

Lemma visit_all_ok invoice operations target ops st :
  target ∈ targetsOf invoice -> ops ⊆ operations ->
  state_ok invoice operations st ->
  state_ok invoice operations (foldl (visit invoice target) st ops).
Proof.
  intros Ht. revert st. induction ops as [|op ops IH]; intros st Hsub Hst; [done|].
  simpl. apply IH.
  - intros x Hx. apply Hsub. by right.
  - apply visit_ok; [done| |done]. apply Hsub. by left.
Qed.

Lemma collect_ok_gen invoice operations targets st :
  targets ⊆ targetsOf invoice ->
  state_ok invoice operations st ->
  state_ok invoice operations
    (foldl (fun st target => foldl (visit invoice target) st operations) st targets).
Proof.
  revert st. induction targets as [|t targets IH]; intros st Hsub Hst; [done|].
  simpl. apply IH.
  - intros x Hx. apply Hsub. by right.
  - apply visit_all_ok; [apply Hsub; by left|done|done].
Qed.

Lemma collectCandidates_ok invoice operations :
  state_ok invoice operations (collectCandidates invoice operations).
Proof.
  apply collect_ok_gen; [done|].
  split; [|split]; simpl.
  - intros k. rewrite elem_of_empty. split; [done|]. by intros ?%elem_of_nil.
  - apply NoDup_nil_2.
  - apply Forall_nil_2.
Qed.

Lemma findMatches_candidate invoice operations c :
  c ∈ findMatchesForInvoice invoice operations ->
  candidate_of_invoice invoice operations c.
Proof.
  intros H. apply elem_of_take_sort in H.
  destruct (collectCandidates_ok invoice operations) as (_ & _ & Hall).
  rewrite Forall_forall in Hall. by apply Hall.
Qed.


Lemma collect_candidate invoice operations c :
  c ∈ (collectCandidates invoice operations).2 ->
  candidate_of_invoice invoice operations c.
Proof.
  intros H. destruct (collectCandidates_ok invoice operations) as (_ & _ & Hall).
  rewrite Forall_forall in Hall. by apply Hall.
Qed.

(** C2, as the code has it: the candidates returned for an invoice have
    pairwise distinct keys, where the key of a candidate is made of the
    statement, the operation and the target label.  An operation is thus
    reported at most once for each target, and may be reported once for
    the invoice amount and once more for the recorded partial payment. *)
Theorem findMatches_keys_distinct invoice operations :
  NoDup (candidateKey <$> findMatchesForInvoice invoice operations).
Proof.
  apply NoDup_take_sort.
  by destruct (collectCandidates_ok invoice operations) as (_ & Hnd & _).
Qed.

Lemma computeConfidence_same_day (d : Q) (nameScore : Z) (targetLabel : string) :
  (d == 0)%Q -> 80 <= computeConfidence (Some d) 3 nameScore targetLabel.
Proof.
  intros Hd. unfold computeConfidence, date_bonus.
  assert (Qleb d 2 = true) as -> by (apply Qleb_true; rewrite Hd; discriminate).
  change (3 <=? 3) with true. cbv iota.
  destruct (3 <=? nameScore), (nameScore =? 2), (nameScore =? 1), (nameScore =? 0),
    (nonempty targetLabel && includes (toLowerCase targetLabel) "partial");
    vm_compute; discriminate.
Qed.

(** C5: a candidate of the matcher with a day difference of 0 and a
    reference score of 3 has a confidence of at least 80, whatever its
    name score and its target label. *)
Theorem confidence_same_day_reference invoice operations c d :
  c ∈ findMatchesForInvoice invoice operations ->
  daysDiff c = Some d -> (d == 0)%Q -> refScore c = 3 ->
  80 <= confidence c.
Proof.
  intros Hc Hdays Hd Href.
  apply findMatches_candidate in Hc as (target & op & _ & _ & _ & _ & ->).
  change (confidence (candidateOf invoice target op)) with
    (computeConfidence (daysDiff (candidateOf invoice target op))
       (refScore (candidateOf invoice target op))
       (nameScore (candidateOf invoice target op))
       (targetLabel (candidateOf invoice target op))).
  rewrite Hdays, Href. by apply computeConfidence_same_day.
Qed.



(** *** The date window *)

Lemma visit_seen_mono invoice target st op k :
  k ∈ st.1 -> k ∈ (visit invoice target st op).1.
Proof.
  destruct st as [seen candidates]. rewrite visit_eq. intros Hk.
  destruct (_ && _ && _); cbn [fst]; [|done]. apply elem_of_union. by right.
Qed.

Lemma visit_all_seen_mono invoice target ops st k :
  k ∈ st.1 -> k ∈ (foldl (visit invoice target) st ops).1.
Proof.
  revert st. induction ops as [|op ops IH]; intros st Hk; [done|].
  simpl. by apply IH, visit_seen_mono.
Qed.

Lemma visit_qualifying_seen invoice target st op :
  amount_matches op target = true -> within_window invoice op = true ->
  operationKey op target ∈ (visit invoice target st op).1.
Proof.
  intros Ha Hw. destruct st as [seen candidates]. rewrite visit_eq, Ha, Hw.
  destruct (bool_decide _) eqn:Hk; cbn [negb andb fst].
  - by apply bool_decide_eq_true in Hk.
  - apply elem_of_union. left. by apply elem_of_singleton.
Qed.

Lemma visit_all_qualifying_seen invoice target ops st op :
  op ∈ ops -> amount_matches op target = true -> within_window invoice op = true ->
  operationKey op target ∈ (foldl (visit invoice target) st ops).1.
Proof.
  intros Hop Ha Hw. revert st.
  induction ops as [|op' ops IH]; intros st; [by apply elem_of_nil in Hop|].
  apply elem_of_cons in Hop as [->|Hop]; simpl.
  - by apply visit_all_seen_mono, visit_qualifying_seen.
  - by apply IH.
Qed.

Lemma targets_seen_mono invoice operations targets st k :
  k ∈ st.1 ->
  k ∈ (foldl (fun st target => foldl (visit invoice target) st operations) st targets).1.
Proof.
  revert st. induction targets as [|t targets IH]; intros st Hk; [done|].
  simpl. by apply IH, visit_all_seen_mono.
Qed.

Lemma targets_qualifying_seen invoice operations targets st target op :
  target ∈ targets -> op ∈ operations ->
  amount_matches op target = true -> within_window invoice op = true ->
  operationKey op target ∈
    (foldl (fun st target => foldl (visit invoice target) st operations) st targets).1.
Proof.
  intros Ht Hop Ha Hw. revert st.
  induction targets as [|t targets IH]; intros st; [by apply elem_of_nil in Ht|].
  apply elem_of_cons in Ht as [->|Ht]; simpl.
  - by apply targets_seen_mono, visit_all_qualifying_seen.
  - by apply IH.
Qed.

(** An operation that passes the two tests has its key among the
    candidates. *)
Lemma qualifying_key_reported invoice operations target op :
  target ∈ targetsOf invoice -> op ∈ operations ->
  amount_matches op target = true -> within_window invoice op = true ->
  ∃ c, c ∈ (collectCandidates invoice operations).2 ∧
       candidateKey c = operationKey op target.
Proof.
  intros Ht Hop Ha Hw.
  pose proof (targets_qualifying_seen invoice operations (targetsOf invoice) (∅, [])
                target op Ht Hop Ha Hw) as Hseen.
  destruct (collectCandidates_ok invoice operations) as (Hkeys & _ & _).
  apply Hkeys, list_elem_of_fmap in Hseen as (c & Hc & Hin). eauto.
Qed.

Lemma candidateOf_label invoice target target' op :
  target_label target' = target_label target ->
  candidateOf invoice target' op = candidateOf invoice target op.
Proof. unfold candidateOf. by intros ->. Qed.

Lemma findMatches_all invoice operations c :
  (length (collectCandidates invoice operations).2 <= 5)%nat ->
  c ∈ (collectCandidates invoice operations).2 ->
  c ∈ findMatchesForInvoice invoice operations.
Proof.
  intros Hlen Hc. unfold findMatchesForInvoice.
  rewrite take_ge.
  - by rewrite sort_perm.
  - by rewrite (Permutation_length (sort_perm compareCandidates _)).
Qed.

(** C8: with the window of 120 days, an operation that matches a target
    of the invoice and lies exactly 120 days from the invoice date passes
    the date test: its key is among the candidates, and when no other
    operation of the index shares that key the operation itself is a
    candidate (and is returned when there are at most five candidates).
    An operation that lies 121 days from the invoice date is no candidate. *)
Theorem window_boundary invoice operations target op d :
  MAX_DATE_DIFF_DAYS = Num 120 ->
  target ∈ targetsOf invoice -> op ∈ operations ->
  amount_matches op target = true ->
  daysOf invoice op = Finite d ->
  ((d == 120)%Q ->
     within_window invoice op = true ∧
     (∃ c, c ∈ (collectCandidates invoice operations).2 ∧
           candidateKey c = operationKey op target) ∧
     ((∀ target' op', target' ∈ targetsOf invoice -> op' ∈ operations ->
         operationKey op' target' = operationKey op target ->
         op' = op ∧ target_label target' = target_label target) ->
      candidateOf invoice target op ∈ (collectCandidates invoice operations).2 ∧
      daysDiff (candidateOf invoice target op) = Some d ∧
      ((length (collectCandidates invoice operations).2 <= 5)%nat ->
       candidateOf invoice target op ∈ findMatchesForInvoice invoice operations))) ∧
  ((d == 121)%Q ->
     within_window invoice op = false ∧
     ∀ c, c ∈ (collectCandidates invoice operations).2 -> operation c <> op).
Proof.
  intros Hmax Ht Hop Ha Hdays. split.
  - intros Hd.
    assert (within_window invoice op = true) as Hw.
    { unfold within_window. rewrite Hdays, Hmax. simpl.
      apply negb_true_iff, Qltb_false. rewrite Hd. apply Qle_refl. }
    split; [done|].
    destruct (qualifying_key_reported invoice operations target op Ht Hop Ha Hw)
      as (c & Hc & Hkey).
    split; [by exists c|]. intros Hunique.
    pose proof (collect_candidate _ _ _ Hc) as (t' & op' & Ht' & Hop' & _ & _ & Heq).
    subst c. rewrite candidateKey_candidateOf in Hkey.
    destruct (Hunique t' op' Ht' Hop' Hkey) as [-> Hlabel].
    rewrite (candidateOf_label _ _ _ _ Hlabel) in Hc.
    split; [done|]. split.
    + unfold candidateOf. simpl. by rewrite Hdays.
    + intros Hlen. by apply findMatches_all.
  - intros Hd.
    assert (within_window invoice op = false) as Hw.
    { unfold within_window. rewrite Hdays, Hmax. simpl.
      apply negb_false_iff, Qltb_true. by rewrite Hd. }
    split; [done|]. intros c Hc Heq.
    pose proof (collect_candidate _ _ _ Hc) as (t' & op' & _ & _ & _ & Hw' & ->).
    simpl in Heq. subst op'. congruence.
Qed.

(** With a finite window no candidate has a null day difference: the
    branches of the sort and of [computeConfidence] for a missing date are
    not reached. *)
Lemma finite_window_drops_undated invoice operations m c :
  MAX_DATE_DIFF_DAYS = Num m ->
  c ∈ findMatchesForInvoice invoice operations -> daysDiff c <> None.
Proof.
  intros Hmax Hc.
  apply findMatches_candidate in Hc as (target & op & _ & _ & _ & Hw & ->).
  unfold within_window in Hw. rewrite Hmax in Hw.
  unfold candidateOf. simpl. by destruct (daysOf invoice op).
Qed.

(** *** No match and unusable amounts *)

Lemma findMatches_nil invoice operations :
  (∀ target op, target ∈ targetsOf invoice -> op ∈ operations ->
     amount_matches op target && within_window invoice op = false) ->
  findMatchesForInvoice invoice operations = [].
Proof.
  intros Hnone. apply elem_of_nil_inv. intros c Hc.
  apply findMatches_candidate in Hc as (target & op & Ht & Hop & Ha & Hw & _).
  specialize (Hnone target op Ht Hop). rewrite Ha, Hw in Hnone. discriminate.
Qed.

Lemma targets_without_amount invoice target :
  parseNumber (inv_amount invoice) = None ->
  target ∈ targetsOf invoice -> target_label target = "recorded partial payment".
Proof.
  intros Hnone. unfold targetsOf. rewrite Hnone. simpl.
  change (Qltb 0 0) with false. simpl.
  destruct (Qltb _ _); [|by intros ?%elem_of_nil].
  by intros ->%list_elem_of_singleton.
Qed.

(** C9, as the code has it: with the API key set and an index that holds
    a credit operation, the matcher ends normally on every list of
    invoices.  An invoice without qualifying candidate has an empty
    result and is left out of the report; an invoice without a usable
    amount raises nothing either: its amount counts as 0, so no target is
    built for the invoice amount and its only candidates are those of the
    recorded partial payment. *)
Theorem matcher_ends_normally env indexPath file pageData since key operations :
  env !! "INVOICE_NINJA_KEY" = Some key -> nonempty key = true ->
  loadOperations indexPath file = Ok operations -> operations <> [] ->
  ∃ report,
    match_main env indexPath file pageData since = Ok report ∧
    ∀ invoice,
      ((∀ target op, target ∈ targetsOf invoice -> op ∈ operations ->
          amount_matches op target && within_window invoice op = false) ->
       findMatchesForInvoice invoice operations = [] ∧ invoice ∉ report.*1) ∧
      (parseNumber (inv_amount invoice) = None ->
       ∀ c, c ∈ findMatchesForInvoice invoice operations ->
            targetLabel c = "recorded partial payment").
Proof.
  intros Hkey Hne Hload Hops. unfold match_main, requireEnv.
  rewrite Hkey, Hne. simpl. rewrite Hload. simpl.
  destruct operations as [|op0 ops]; [done|].
  eexists. split; [reflexivity|].
  intros invoice. split.
  - intros Hnone. pose proof (findMatches_nil _ _ Hnone) as Hnil.
    split; [done|].
    intros Hin. apply list_elem_of_fmap in Hin as ([inv' m] & -> & Hin).
    apply list_elem_of_In, filter_In in Hin as [Hin Hf].
    apply bool_decide_eq_true in Hf.
    apply list_elem_of_In, list_elem_of_fmap in Hin as (inv'' & [= -> ->] & _).
    simpl in Hf, Hnil. by rewrite Hnil in Hf.
  - intros Hamount c Hc.
    apply findMatches_candidate in Hc as (target & op & Ht & _ & _ & _ & ->).
    simpl. by apply targets_without_amount with invoice.
Qed.

(** ** Strings *)

Local Arguments String.append !_ _ / : simpl nomatch.

Lemma append_nil_r (s : string) : s +:+ EmptyString = s.
Proof. induction s; simpl; congruence. Qed.


Lemma rev_app_rev_app (a b c : string) :
  String.rev_app (String.rev_app a b) c = String.rev_app b (a +:+ c).
Proof.
  revert b. induction a as [|x a IH]; intros b; simpl; [done|].
  by rewrite IH.
Qed.

Lemma rev_rev_app (a : string) : String.rev (String.rev_app a EmptyString) = a.
Proof. unfold String.rev. rewrite rev_app_rev_app. simpl. apply append_nil_r. Qed.



Lemma digitsN_spec (n : nat) (s d r : string) :
  digitsN n s = Some (d, r) ->
  s = d +:+ r ∧ all_chars is_digit d = true ∧ String.length d = n.
Proof.
  revert s d r. induction n as [|n IH]; intros s d r; simpl.
  - by intros [= <- <-].
  - destruct s as [|c s]; [done|].
    destruct (is_digit c) eqn:Hc; [|done].
    destruct (digitsN n s) as [[d' r']|] eqn:Hd; [|done].
    intros [= <- <-]. destruct (IH _ _ _ Hd) as (-> & Hall & Hlen).
    simpl. by rewrite Hc, Hall, Hlen.
Qed.

Lemma digit_not_space (c : ascii) : is_digit c = true -> is_space c = false.
Proof. by destruct c as [[] [] [] [] [] [] [] []]. Qed.



Lemma split_go_segment (c : ascii) (cur a b : string) :
  all_chars (fun x => negb (Ascii.eqb x c)) a = true ->
  split_go c cur (a +:+ String c b) =
    String.rev (String.rev_app a cur) :: split_go c EmptyString b.
Proof.
  revert cur. induction a as [|x a IH]; intros cur; simpl.
  - intros _. by rewrite Ascii.eqb_refl.
  - intros [Hx Ha]%andb_true_iff. apply negb_true_iff in Hx. rewrite Hx.
    by apply IH.
Qed.

Lemma split_segment (c : ascii) (a b : string) :
  all_chars (fun x => negb (Ascii.eqb x c)) a = true ->
  split c (a +:+ String c b) = a :: split c b.
Proof.
  intros Ha. unfold split. rewrite split_go_segment by done.
  by rewrite rev_rev_app.
Qed.


(** ** The value line *)

Local Arguments digitsN : simpl never.
Local Arguments span : simpl never.
Local Arguments expect : simpl never.






(** ** Amounts and directions *)


















(** ** Failures of the batch *)















(** ** The command line of the importer *)

Lemma parseArgs_loop_flags argv options parsed :
  parseArgs_loop argv options = Parsed parsed ->
  ("--overwrite" ∉ argv -> cli_overwrite parsed = cli_overwrite options) ∧
  ("--no-standalone-pdf" ∉ argv ->
   cli_includeStandalonePdfs parsed = cli_includeStandalonePdfs options) ∧
  ("--output" ∉ argv -> cli_outputDir parsed = cli_outputDir options) ∧
  ("--input" ∉ argv -> "--source" ∉ argv -> cli_inputPath parsed = cli_inputPath options).
Proof.
  revert options. induction argv as [argv IH] using (induction_ltof1 _ (@length string)).
  unfold ltof in IH. intros options.
  destruct argv as [|arg rest]; simpl.
  { by intros [= <-]. }
  destruct (String.eqb arg "--input" || String.eqb arg "--source") eqn:Hin.
  { destruct rest as [|value rest']; [by intros [= <-]|].
    intros H. apply IH in H; [|simpl; lia]. simpl in H.
    destruct H as (H1 & H2 & H3 & H4).
    repeat split.
    - intros Hn. apply H1. intros Hx. apply Hn. by do 2 apply list_elem_of_further.
    - intros Hn. apply H2. intros Hx. apply Hn. by do 2 apply list_elem_of_further.
    - intros Hn. apply H3. intros Hx. apply Hn. by do 2 apply list_elem_of_further.
    - intros Hn1 Hn2. exfalso.
      apply orb_true_iff in Hin as [->%String.eqb_eq| ->%String.eqb_eq].
      + apply Hn1. apply list_elem_of_here.
      + apply Hn2. apply list_elem_of_here. }
  destruct (String.eqb arg "--output") eqn:Hout.
  { apply String.eqb_eq in Hout as ->.
    destruct rest as [|value rest']; [by intros [= <-]|].
    intros H. apply IH in H; [|simpl; lia]. simpl in H.
    destruct H as (H1 & H2 & H3 & H4).
    repeat split.
    - intros Hn. apply H1. intros Hx. apply Hn. by do 2 apply list_elem_of_further.
    - intros Hn. apply H2. intros Hx. apply Hn. by do 2 apply list_elem_of_further.
    - intros Hn. exfalso. apply Hn. apply list_elem_of_here.
    - intros Hn1 Hn2. apply H4.
      + intros Hx. apply Hn1. by do 2 apply list_elem_of_further.
      + intros Hx. apply Hn2. by do 2 apply list_elem_of_further. }
  destruct (String.eqb arg "--no-standalone-pdf") eqn:Hpdf.
  { apply String.eqb_eq in Hpdf as ->.
    intros H. apply IH in H; [|simpl; lia]. simpl in H.
    destruct H as (H1 & H2 & H3 & H4).
    repeat split.
    - intros Hn. apply H1. intros Hx. apply Hn. by apply list_elem_of_further.
    - intros Hn. exfalso. apply Hn. apply list_elem_of_here.
    - intros Hn. apply H3. intros Hx. apply Hn. by apply list_elem_of_further.
    - intros Hn1 Hn2. apply H4.
      + intros Hx. apply Hn1. by apply list_elem_of_further.
      + intros Hx. apply Hn2. by apply list_elem_of_further. }
  destruct (String.eqb arg "--overwrite") eqn:Hover.
  { apply String.eqb_eq in Hover as ->.
    intros H. apply IH in H; [|simpl; lia]. simpl in H.
    destruct H as (H1 & H2 & H3 & H4).
    repeat split.
    - intros Hn. exfalso. apply Hn. apply list_elem_of_here.
    - intros Hn. apply H2. intros Hx. apply Hn. by apply list_elem_of_further.
    - intros Hn. apply H3. intros Hx. apply Hn. by apply list_elem_of_further.
    - intros Hn1 Hn2. apply H4.
      + intros Hx. apply Hn1. by apply list_elem_of_further.
      + intros Hx. apply Hn2. by apply list_elem_of_further. }
  destruct (String.eqb arg "--help" || String.eqb arg "-h"); [done|].
  intros H. apply IH in H; [|simpl; lia].
  destruct H as (H1 & H2 & H3 & H4).
  repeat split.
  - intros Hn. apply H1. intros Hx. apply Hn. by apply list_elem_of_further.
  - intros Hn. apply H2. intros Hx. apply Hn. by apply list_elem_of_further.
  - intros Hn. apply H3. intros Hx. apply Hn. by apply list_elem_of_further.
  - intros Hn1 Hn2. apply H4.
    + intros Hx. apply Hn1. by apply list_elem_of_further.
    + intros Hx. apply Hn2. by apply list_elem_of_further.
Qed.

Lemma parseArgs_loop_returns argv options :
  "--help" ∉ argv -> "-h" ∉ argv -> ∃ parsed, parseArgs_loop argv options = Parsed parsed.
Proof.
  revert options. induction argv as [argv IH] using (induction_ltof1 _ (@length string)).
  unfold ltof in IH. intros options Hn1 Hn2.
  destruct argv as [|arg rest]; simpl; [by eexists|].
  assert (Hrest : ∀ l, (∀ x, x ∈ l -> x ∈ rest) -> (length l <= length rest)%nat ->
                       ∀ o, ∃ parsed, parseArgs_loop l o = Parsed parsed).
  { intros l Hl Hlen o. apply IH; [simpl; lia| |].
    - intros Hx. apply Hn1. apply list_elem_of_further. by apply Hl.
    - intros Hx. apply Hn2. apply list_elem_of_further. by apply Hl. }
  assert (Htail : ∀ value rest', rest = value :: rest' ->
                    ∀ o, ∃ parsed, parseArgs_loop rest' o = Parsed parsed).
  { intros value rest' -> o. apply Hrest; [|simpl; lia].
    intros x Hx. by apply list_elem_of_further. }
  destruct (String.eqb arg "--input" || String.eqb arg "--source").
  { destruct rest as [|value rest']; [by eexists|]. by eapply Htail. }
  destruct (String.eqb arg "--output").
  { destruct rest as [|value rest']; [by eexists|]. by eapply Htail. }
  destruct (String.eqb arg "--no-standalone-pdf"); [by apply Hrest|].
  destruct (String.eqb arg "--overwrite"); [by apply Hrest|].
  destruct (String.eqb arg "--help" || String.eqb arg "-h") eqn:Hhelp; [|by apply Hrest].
  exfalso. apply orb_true_iff in Hhelp as [->%String.eqb_eq| ->%String.eqb_eq].
  - apply Hn1. apply list_elem_of_here.
  - apply Hn2. apply list_elem_of_here.
Qed.

(** The options of the importer are the defaults but for the options that
    the command line names: without [--overwrite] among the arguments no
    file is overwritten, without [--no-standalone-pdf] the stand-alone PDF
    files are included, without [--output] the output directory is the
    default one, without [--input] and [--source] the input path is the
    current directory; and the command line is read to its end unless it
    holds [--help] or [-h]. *)
Theorem parseArgs_defaults argv :
  (∀ parsed, parseArgs argv = Parsed parsed ->
     ("--overwrite" ∉ argv -> cli_overwrite parsed = false) ∧
     ("--no-standalone-pdf" ∉ argv -> cli_includeStandalonePdfs parsed = true) ∧
     ("--output" ∉ argv -> cli_outputDir parsed = DEFAULT_OUTPUT_DIR) ∧
     ("--input" ∉ argv -> "--source" ∉ argv -> cli_inputPath parsed = ".")) ∧
  ("--help" ∉ argv -> "-h" ∉ argv -> ∃ parsed, parseArgs argv = Parsed parsed).
Proof.
  split.
  - intros parsed H. by apply parseArgs_loop_flags in H.
  - apply parseArgs_loop_returns.
Qed.

(** ** The sources of the importer *)

Lemma Dirent_ind (P : Dirent -> Prop) :
  (∀ name, P (DirentFile name)) ->
  (∀ name m, P (DirentDirectory name (Err m))) ->
  (∀ name entries, Forall P entries -> P (DirentDirectory name (Ok entries))) ->
  (∀ name, P (DirentOther name)) ->
  ∀ entry, P entry.
Proof.
  intros Hfile Herr Hdir Hother. fix IH 1.
  intros [name|name [entries|m]|name].
  - apply Hfile.
  - apply Hdir. induction entries as [|entry entries IHentries].
    + apply Forall_nil_2.
    + apply Forall_cons_2; [apply IH|apply IHentries].
  - apply Herr.
  - apply Hother.
Qed.

Lemma walk_entry_directory includeStandalonePdfs directory name entries found :
  walk_entry includeStandalonePdfs directory (DirentDirectory name (Ok entries)) found =
  if bool_decide (name ∈ SKIP_DIRECTORIES) then Ok found
  else walk_entries includeStandalonePdfs (path_join directory name) entries found.
Proof.
  simpl. destruct (bool_decide _); [done|].
  revert found. induction entries as [|entry rest IH]; intros found; simpl; [done|].
  destruct (walk_entry _ _ entry found); [apply IH|done].
Qed.

Lemma reached_file_cons directory entry entries path file :
  reached_file directory (entry :: entries) path file ↔
  reached_file directory [entry] path file ∨ reached_file directory entries path file.
Proof.
  split.
  - intros H. inversion H as [d es n Hin Hskip|d es n content p f Hin Hskip Hsub]; subst.
    + apply elem_of_cons in Hin as [<-|Hin].
      * left. apply reached_here; [apply list_elem_of_here|done].
      * right. by apply reached_here.
    + apply elem_of_cons in Hin as [<-|Hin].
      * left. eapply reached_below; [apply list_elem_of_here|done..].
      * right. by eapply reached_below.
  - intros [H|H].
    + inversion H as [d es n Hin Hskip|d es n content p f Hin Hskip Hsub]; subst.
      * apply list_elem_of_singleton in Hin as <-.
        apply reached_here; [apply list_elem_of_here|done].
      * apply list_elem_of_singleton in Hin as <-.
        eapply reached_below; [apply list_elem_of_here|done..].
    + inversion H as [d es n Hin Hskip|d es n content p f Hin Hskip Hsub]; subst.
      * apply reached_here; [by apply list_elem_of_further|done].
      * eapply reached_below; [by apply list_elem_of_further|done..].
Qed.

Lemma reached_file_nil directory path file : ¬ reached_file directory [] path file.
Proof.
  intros H. inversion H as [d es n Hin Hskip|d es n content p f Hin Hskip Hsub]; subst;
    by apply elem_of_nil in Hin.
Qed.

Lemma walk_entries_adds includeStandalonePdfs entries :
  Forall (entry_adds includeStandalonePdfs) entries ->
  ∀ directory found found',
    walk_entries includeStandalonePdfs directory entries found = Ok found' ->
    (∀ path, path ∈ found_zipFiles found' ↔
       path ∈ found_zipFiles found ∨
       ∃ name, reached_file directory entries path name ∧
               endsWith (toLowerCase name) ".zip" = true) ∧
    (∀ path, path ∈ found_pdfFiles found' ↔
       path ∈ found_pdfFiles found ∨
       (includeStandalonePdfs = true ∧
        ∃ name, reached_file directory entries path name ∧
                endsWith (toLowerCase name) ".zip" = false ∧
                endsWith (toLowerCase name) ".pdf" = true)).
Proof.
  induction 1 as [|entry rest Hentry Hrest IH]; intros directory found found'; simpl.
  { intros [= <-]. split; intros path; (split; [by left|]).
    - intros [H|(name & H & _)]; [done|]. by apply reached_file_nil in H.
    - intros [H|(_ & name & H & _)]; [done|]. by apply reached_file_nil in H. }
  destruct (walk_entry _ directory entry found) as [found1|m] eqn:H1; [|done].
  intros H2. destruct (Hentry _ _ _ H1) as [Hz1 Hp1].
  destruct (IH _ _ _ H2) as [Hz2 Hp2].
  split; intros path.
  - rewrite Hz2, Hz1. split.
    + intros [[H|(n & H & Hzip)]|(n & H & Hzip)];
        [by left|right; exists n; split; [apply reached_file_cons; by left|done]
                |right; exists n; split; [apply reached_file_cons; by right|done]].
    + intros [H|(n & [H|H]%reached_file_cons & Hzip)];
        [by left; left|left; right; by exists n|right; by exists n].
  - rewrite Hp2, Hp1. split.
    + intros [[H|(Hi & n & H & Hzip)]|(Hi & n & H & Hzip)];
        [by left
        |right; split; [done|]; exists n; split; [apply reached_file_cons; by left|done]
        |right; split; [done|]; exists n; split; [apply reached_file_cons; by right|done]].
    + intros [H|(Hi & n & [H|H]%reached_file_cons & Hzip)];
        [by left; left|left; right; split; [done|]; by exists n
                      |right; split; [done|]; by exists n].
Qed.

Lemma walk_entry_adds includeStandalonePdfs entry :
  entry_adds includeStandalonePdfs entry.
Proof.
  induction entry as [name|name m|name entries IH|name] using Dirent_ind;
    intros directory found found'.
  - simpl. destruct (decide (name ∈ SKIP_DIRECTORIES)) as [Hskip|Hskip].
    { rewrite bool_decide_eq_true_2 by done. intros [= <-].
      split; intros path; (split; [by left|]).
      - intros [H|(n & H & _)]; [done|].
        inversion H as [d es n' Hin Hs|d es n' content p f Hin Hs Hsub]; subst.
        + by apply list_elem_of_singleton in Hin as [= <-].
        + by apply list_elem_of_singleton in Hin.
      - intros [H|(_ & n & H & _)]; [done|].
        inversion H as [d es n' Hin Hs|d es n' content p f Hin Hs Hsub]; subst.
        + by apply list_elem_of_singleton in Hin as [= <-].
        + by apply list_elem_of_singleton in Hin. }
    rewrite bool_decide_eq_false_2 by done.
    assert (Hreach : ∀ path n, reached_file directory [DirentFile name] path n ↔
                               path = path_join directory name ∧ n = name).
    { intros path n. split.
      - intros H. inversion H as [d es n' Hin Hs|d es n' content p f Hin Hs Hsub]; subst.
        + by apply list_elem_of_singleton in Hin as [= <-].
        + by apply list_elem_of_singleton in Hin.
      - intros [-> ->]. apply reached_here; [apply list_elem_of_here|done]. }
    destruct (endsWith (toLowerCase name) ".zip") eqn:Hzip.
    { intros [= <-]. simpl. split; intros path.
      - rewrite elem_of_app, list_elem_of_singleton. setoid_rewrite Hreach.
        split; [intros [?| ->]; [by left|right; by exists name]|].
        intros [?|(n & [-> ->] & _)]; [by left|by right].
      - split; [by left|]. intros [?|(_ & n & [_ ->]%Hreach & Hz & _)]; [done|congruence]. }
    destruct includeStandalonePdfs; simpl.
    + destruct (endsWith (toLowerCase name) ".pdf") eqn:Hpdf.
      * intros [= <-]. simpl. split; intros path.
        -- split; [by left|]. intros [?|(n & [_ ->]%Hreach & Hz)]; [done|congruence].
        -- rewrite elem_of_app, list_elem_of_singleton. setoid_rewrite Hreach.
           split; [intros [?| ->]; [by left|right; split; [done|by exists name]]|].
           intros [?|(_ & n & [-> ->] & _)]; [by left|by right].
      * intros [= <-]. split; intros path; (split; [by left|]).
        -- intros [?|(n & [_ ->]%Hreach & Hz)]; [done|congruence].
        -- intros [?|(_ & n & [_ ->]%Hreach & _ & Hp)]; [done|congruence].
    + intros [= <-]. split; intros path; (split; [by left|]).
      * intros [?|(n & [_ ->]%Hreach & Hz)]; [done|congruence].
      * by intros [?|(? & _)].
  - simpl. destruct (bool_decide _); [|done].
    intros [= <-]. split; intros path; (split; [by left|]).
    + intros [H|(n & H & _)]; [done|].
      inversion H as [d es n' Hin Hs|d es n' content p f Hin Hs Hsub]; subst.
      * by apply list_elem_of_singleton in Hin.
      * by apply list_elem_of_singleton in Hin as [= <-].
    + intros [H|(_ & n & H & _)]; [done|].
      inversion H as [d es n' Hin Hs|d es n' content p f Hin Hs Hsub]; subst.
      * by apply list_elem_of_singleton in Hin.
      * by apply list_elem_of_singleton in Hin as [= <-].
  - rewrite walk_entry_directory.
    assert (Hreach : ∀ path n,
              reached_file directory [DirentDirectory name (Ok entries)] path n ↔
              (name ∉ SKIP_DIRECTORIES) ∧
              reached_file (path_join directory name) entries path n).
    { intros path n. split.
      - intros H. inversion H as [d es n' Hin Hs|d es n' content p f Hin Hs Hsub]; subst.
        + by apply list_elem_of_singleton in Hin.
        + by apply list_elem_of_singleton in Hin as [= <- <-].
      - intros [Hs H]. eapply reached_below; [apply list_elem_of_here|done..]. }
    destruct (decide (name ∈ SKIP_DIRECTORIES)) as [Hskip|Hskip].
    { rewrite bool_decide_eq_true_2 by done. intros [= <-].
      split; intros path; (split; [by left|]).
      - by intros [?|(n & [? _]%Hreach & _)].
      - by intros [?|(_ & n & [? _]%Hreach & _)]. }
    rewrite bool_decide_eq_false_2 by done.
    intros H. destruct (walk_entries_adds _ _ IH _ _ _ H) as [Hz Hp].
    split; intros path.
    + rewrite Hz. setoid_rewrite Hreach. split.
      * intros [?|(n & ? & ?)]; [by left|right; by exists n].
      * intros [?|(n & [_ ?] & ?)]; [by left|right; by exists n].
    + rewrite Hp. setoid_rewrite Hreach. split.
      * intros [?|(? & n & ? & ?)]; [by left|right; split; [done|]; by exists n].
      * intros [?|(? & n & [_ ?] & ?)]; [by left|right; split; [done|]; by exists n].
  - simpl. intros [= <-]. split; intros path; (split; [by left|]).
    + intros [H|(n & H & _)]; [done|].
      inversion H as [d es n' Hin Hs|d es n' content p f Hin Hs Hsub]; subst;
        by apply list_elem_of_singleton in Hin.
    + intros [H|(_ & n & H & _)]; [done|].
      inversion H as [d es n' Hin Hs|d es n' content p f Hin Hs Hsub]; subst;
        by apply list_elem_of_singleton in Hin.
Qed.

(** The archives that [collectSources] finds below a directory are the
    files that the walk reaches whose name ends in [.zip], in any letter
    case; the PDF files it finds are, when stand-alone PDF files are
    asked for, the files it reaches whose name ends in [.pdf], and none
    otherwise.  The walk reaches the files of the directory and of its
    sub-directories, those named [.git], [node_modules], [.cache], [.idea]
    or [.vscode] and all that is below them left out; a directory that
    cannot be read makes it fail. *)
Theorem collectSources_finds rootPath content includeStandalonePdfs found :
  collectSources rootPath (StatOther content) includeStandalonePdfs = Ok found ->
  ∃ entries,
    content = Ok entries ∧
    (∀ path, path ∈ found_zipFiles found ↔
       ∃ name, reached_file rootPath entries path name ∧
               endsWith (toLowerCase name) ".zip" = true) ∧
    (∀ path, path ∈ found_pdfFiles found ↔
       includeStandalonePdfs = true ∧
       ∃ name, reached_file rootPath entries path name ∧
               endsWith (toLowerCase name) ".zip" = false ∧
               endsWith (toLowerCase name) ".pdf" = true).
Proof.
  unfold collectSources, walk. destruct content as [entries|m]; [|done].
  intros H. exists entries. split; [done|].
  assert (Hall : Forall (entry_adds includeStandalonePdfs) entries).
  { apply Forall_forall. intros entry _. apply walk_entry_adds. }
  destruct (walk_entries_adds _ _ Hall _ _ _ H) as [Hz Hp]. simpl in Hz, Hp.
  split; intros path.
  - rewrite Hz. split; [|by right]. by intros [?%elem_of_nil|?].
  - rewrite Hp. split; [|by right]. by intros [?%elem_of_nil|?].
Qed.

(** ** The invoices of the matcher *)

Lemma filter_elem_of {A} (p : A -> bool) (l : list A) (x : A) :
  x ∈ List.filter p l ↔ x ∈ l ∧ p x = true.
Proof. rewrite !list_elem_of_In. apply filter_In. Qed.

Lemma fetchAllInvoices_loop_open responses fuel currentPage totalPages invoices :
  1 <= currentPage ->
  (∀ invoice, invoice ∈ invoices ->
     is_open_invoice invoice = true ∧
     ∃ page payload data,
       1 <= page ∧ responses page = Ok (Some payload) ∧
       page_data payload = Some data ∧ invoice ∈ data) ->
  (∀ result,
     fetchAllInvoices_loop responses fuel currentPage totalPages invoices = Some (Ok result) ->
     ∀ invoice, invoice ∈ result ->
       is_open_invoice invoice = true ∧
       ∃ page payload data,
         1 <= page ∧ responses page = Ok (Some payload) ∧
         page_data payload = Some data ∧ invoice ∈ data) ∧
  (∀ message,
     fetchAllInvoices_loop responses fuel currentPage totalPages invoices = Some (Err message) ->
     ∃ page, 1 <= page ∧ responses page = Err message).
Proof.
  revert currentPage totalPages invoices.
  induction fuel as [|fuel IH]; intros currentPage totalPages invoices Hpage Hinv; simpl.
  { destruct (negb _); [|done]. split; [by intros result [= <-]|done]. }
  destruct (negb _); [split; [by intros result [= <-]|done]|].
  destruct (responses currentPage) as [data|m] eqn:Hresp.
  2:{ split; [done|]. intros message [= <-]. by exists currentPage. }
  apply IH; [lia|].
  intros invoice [Hin|Hin]%elem_of_app; [by apply Hinv|].
  apply filter_elem_of in Hin as [Hin Hopen]. split; [done|].
  destruct data as [payload|]; [|by apply elem_of_nil in Hin]. simpl in Hin.
  destruct (page_data payload) as [pageData|] eqn:Hdata; [|by apply elem_of_nil in Hin].
  by exists currentPage, payload, pageData.
Qed.

(** Whatever the service answers, [fetchAllInvoices] returns open invoices
    only, each found on one of the pages: its status is one of the five
    open ones and its balance is a number above 0.0001.  When it fails, it
    fails with the exception of one of its requests. *)
Theorem fetchAllInvoices_open responses fuel :
  (∀ invoices,
     fetchAllInvoices responses fuel = Some (Ok invoices) ->
     ∀ invoice, invoice ∈ invoices ->
       is_open_invoice invoice = true ∧
       ∃ page payload data,
         1 <= page ∧ responses page = Ok (Some payload) ∧
         page_data payload = Some data ∧ invoice ∈ data) ∧
  (∀ message,
     fetchAllInvoices responses fuel = Some (Err message) ->
     ∃ page, 1 <= page ∧ responses page = Err message).
Proof.
  apply fetchAllInvoices_loop_open; [done|]. by intros invoice ?%elem_of_nil.
Qed.

Lemma Qleb_inject_Z (a : Z) (t : Q) (n : Z) :
  (t == inject_Z n)%Q -> Qleb (inject_Z a) t = true ↔ a <= n.
Proof.
  intros Ht. by rewrite Qleb_true, Ht, <- Zle_Qle.
Qed.

Lemma fetchAllInvoices_loop_pages responses (n : Z) (m : nat) :
  (∀ page, 1 <= page <= n ->
     ∃ payload t,
       responses page = Ok (Some payload) ∧
       page_pagination payload = Some {| total_pages := Some t |} ∧
       (t == inject_Z n)%Q) ->
  ∀ fuel currentPage totalPages invoices,
    currentPage + Z.of_nat m = n + 1 -> 1 <= currentPage -> (m <= fuel)%nat ->
    (Qleb (inject_Z currentPage) totalPages = true ↔ currentPage <= n) ->
    fetchAllInvoices_loop responses fuel currentPage totalPages invoices =
    Some (Ok (invoices ++
              List.filter is_open_invoice
                (page ← seqZ currentPage (Z.of_nat m);
                 match responses page with
                 | Ok (Some payload) => default [] (page_data payload)
                 | _ => []
                 end))).
Proof.
  intros Hpages. induction m as [|m IH];
    intros fuel currentPage totalPages invoices Hm Hpage Hfuel Htotal.
  { assert (Hle : Qleb (inject_Z currentPage) totalPages = false).
    { apply not_true_is_false. intros Hq. apply Htotal in Hq. lia. }
    destruct fuel; simpl; rewrite Hle; simpl; by rewrite app_nil_r. }
  assert (Hle : Qleb (inject_Z currentPage) totalPages = true) by (apply Htotal; lia).
  destruct fuel as [|fuel]; [lia|]. simpl fetchAllInvoices_loop. rewrite Hle. simpl negb.
  cbv iota.
  destruct (Hpages currentPage) as (payload & t & Hresp & Hpag & Ht); [lia|].
  rewrite Hresp. simpl default. rewrite Hpag.
  assert (Htot : total_pages_or {| total_pages := Some t |} totalPages = t).
  { unfold total_pages_or. simpl. destruct (Qeq_bool t 0) eqn:H0; [|done].
    apply Qeq_bool_iff in H0. rewrite Ht in H0.
    exfalso. revert H0. unfold Qeq. simpl. lia. }
  rewrite Htot.
  rewrite IH; [| lia | lia | lia | by rewrite Qleb_inject_Z by done; lia].
  f_equal. f_equal. rewrite <- app_assoc. f_equal.
  replace (Z.of_nat (S m)) with (Z.succ (Z.of_nat m)) by lia.
  assert (Hpos : 0 < Z.succ (Z.of_nat m)) by lia.
  rewrite (seqZ_cons _ _ Hpos), bind_cons, Hresp, List.filter_app.
  replace (Z.pred (Z.succ (Z.of_nat m))) with (Z.of_nat m) by lia.
  by replace (Z.succ currentPage) with (currentPage + 1) by lia.
Qed.

(** When each of the pages 1 to [n] announces [n] pages in all,
    [fetchAllInvoices] asks for these pages and no other, and returns
    their open invoices in the order of the pages; [n] requests are
    enough.  When the answer to the first request carries no pagination,
    the first page is the only one read. *)
Theorem fetchAllInvoices_pages responses (n : Z) (fuel : nat) :
  1 <= n -> (Z.to_nat n <= fuel)%nat ->
  ((∀ page, 1 <= page <= n ->
      ∃ payload t,
        responses page = Ok (Some payload) ∧
        page_pagination payload = Some {| total_pages := Some t |} ∧
        (t == inject_Z n)%Q) ->
   fetchAllInvoices responses fuel =
   Some (Ok (List.filter is_open_invoice (pages_data responses n)))) ∧
  ((∃ data, responses 1 = Ok data ∧ data ≫= page_pagination = None) ->
   fetchAllInvoices responses fuel =
   Some (Ok (List.filter is_open_invoice (pages_data responses 1)))).
Proof.
  intros Hn Hfuel. split.
  - intros Hpages. unfold fetchAllInvoices, pages_data.
    rewrite (fetchAllInvoices_loop_pages responses n (Z.to_nat n) Hpages); try lia.
    + simpl. by rewrite Z2Nat.id by lia.
    + change (Qleb (inject_Z 1) 1) with true. split; [lia|done].
  - intros (data & Hresp & Hpag). unfold fetchAllInvoices, pages_data.
    destruct fuel as [|fuel]; [lia|]. simpl fetchAllInvoices_loop.
    change (Qleb (inject_Z 1) 1) with true. simpl negb. cbv iota.
    rewrite Hresp.
    assert (Hnone : page_pagination
                      (default {| page_data := None; page_pagination := None |} data)
                    = None).
    { destruct data as [payload|]; [exact Hpag|done]. }
    rewrite Hnone.
    assert (Hend : ∀ invoices,
              fetchAllInvoices_loop responses fuel (1 + 1) (inject_Z 1) invoices =
              Some (Ok invoices)).
    { intros invoices. by destruct fuel. }
    rewrite Hend. simpl app.
    change (seqZ 1 1) with [1]. rewrite bind_cons, Hresp. simpl.
    rewrite app_nil_r. by destruct data.
Qed.

(** ** The command line of the matcher *)

Lemma split_go_whole (c : ascii) (cur s : string) :
  all_chars (fun x => negb (Ascii.eqb x c)) s = true ->
  split_go c cur s = [String.rev (String.rev_app s cur)].
Proof.
  revert cur. induction s as [|x s IH]; intros cur; simpl; [done|].
  intros [Hx Hs]%andb_true_iff. apply negb_true_iff in Hx. rewrite Hx. by apply IH.
Qed.

Lemma split_whole (c : ascii) (s : string) :
  all_chars (fun x => negb (Ascii.eqb x c)) s = true -> split c s = [s].
Proof.
  intros Hs. unfold split. rewrite split_go_whole by done. by rewrite rev_rev_app.
Qed.

(** The two ways of giving a value to an option of the matcher are
    read alike: for a value that is not empty and holds no [=],
    [--since=value] is read as [--since value] is, and [--per-page=value]
    as [--per-page value]. *)
Theorem parseOptions_two_syntaxes value rest opts :
  nonempty value = true ->
  all_chars (fun x => negb (Ascii.eqb x "=")) value = true ->
  parseOptions_loop (("--since=" +:+ value) :: rest) opts =
  parseOptions_loop ("--since" :: value :: rest) opts ∧
  parseOptions_loop (("--per-page=" +:+ value) :: rest) opts =
  parseOptions_loop ("--per-page" :: value :: rest) opts.
Proof.
  intros Hne Hvalue. split.
  - change ("--since=" +:+ value) with ("--since" +:+ String "=" value).
    cbn [parseOptions_loop].
    change (String.eqb ("--since" +:+ String "=" value) "--per-page") with false.
    change (startsWith ("--since" +:+ String "=" value) "--per-page=") with false.
    change (String.eqb ("--since" +:+ String "=" value) "--insecure") with false.
    change (String.eqb ("--since" +:+ String "=" value) "--verbose") with false.
    change (String.eqb ("--since" +:+ String "=" value) "--since") with false.
    replace (startsWith ("--since" +:+ String "=" value) "--since=") with true
      by (by destruct value).
    change (String.eqb "--since" "--per-page") with false.
    change (startsWith "--since" "--per-page=") with false.
    change (String.eqb "--since" "--insecure") with false.
    change (String.eqb "--since" "--verbose") with false.
    change (String.eqb "--since" "--since") with true.
    cbv iota.
    rewrite split_segment by done. rewrite split_whole by done.
    reflexivity.
  - change ("--per-page=" +:+ value) with ("--per-page" +:+ String "=" value).
    cbn [parseOptions_loop].
    change (String.eqb ("--per-page" +:+ String "=" value) "--per-page") with false.
    replace (startsWith ("--per-page" +:+ String "=" value) "--per-page=") with true
      by (by destruct value).
    change (String.eqb "--per-page" "--per-page") with true.
    cbv iota.
    rewrite split_segment by done. rewrite split_whole by done.
    cbn [lookup list_lookup Number_of]. by rewrite Hne.
Qed.

(** ** The files that a run of the importer writes *)

(** A property of the statements processed so far and of the world that
    every document keeps holds at the end of the two loops of [main]. *)
Section Invariant.

Variable options : Options.
Variable I : list Processed -> World -> Prop.
Hypothesis step : ∀ text context processed w,
  I processed w ->
  match processDocument text context options w with
  | (Ok p, w') => I (processed ++ [p]) w'
  | (Err _, w') => I processed w'
  end.

Lemma processZipEntries_invariant zipPath entries before acc w :
  I (before ++ statements acc) w ->
  I (before ++ statements (processZipEntries zipPath options entries acc w).1)
    (processZipEntries zipPath options entries acc w).2.
Proof using step.
  revert acc w. induction entries as [|entry rest IH]; intros acc w H; simpl; [done|].
  destruct (ze_isDirectory entry); [by apply IH|].
  destruct (negb _); [by apply IH|].
  pose proof (step (ze_text entry)
                {| source_type := "zip"; originPath := zipPath;
                   entryName := Some (ze_entryName entry) |} _ _ H) as Hstep.
  destruct (processDocument _ _ _ _) as [[p|m] w']; apply IH; simpl; [|done].
  by rewrite app_assoc.
Qed.

Lemma processZipFiles_invariant zipFiles acc w :
  I (statements acc) w ->
  I (statements (processZipFiles zipFiles options acc w).1)
    (processZipFiles zipFiles options acc w).2.
Proof using step.
  revert acc w. induction zipFiles as [|[zipPath entries] rest IH]; intros acc w H;
    simpl; [done|].
  pose proof (processZipEntries_invariant zipPath entries (statements acc)
                {| statements := []; failures := [] |} w) as Hz.
  simpl in Hz. rewrite app_nil_r in Hz. specialize (Hz H).
  unfold processZipArchive.
  destruct (processZipEntries _ _ _ _ _) as [zipResults w']. by apply IH.
Qed.

Lemma processPdfFiles_invariant pdfFiles acc w :
  I (statements acc) w ->
  I (statements (processPdfFiles pdfFiles options acc w).1)
    (processPdfFiles pdfFiles options acc w).2.
Proof using step.
  revert acc w. induction pdfFiles as [|[pdfPath text] rest IH]; intros acc w H;
    simpl; [done|].
  pose proof (step text {| source_type := "pdf"; originPath := pdfPath;
                           entryName := None |} _ _ H) as Hstep.
  unfold processSinglePdf.
  destruct (processDocument _ _ _ _) as [[p|m] w']; apply IH; simpl; [done|].
  by rewrite app_nil_r.
Qed.

Lemma import_main_invariant zipFiles pdfFiles w :
  I [] w ->
  ∃ w2,
    I (processedStatements (import_main zipFiles pdfFiles options w)) w2 ∧
    world (import_main zipFiles pdfFiles options w) =
      match processedStatements (import_main zipFiles pdfFiles options w) with
      | [] => w2
      | _ :: _ =>
          emitAggregatedIndex
            (processedStatements (import_main zipFiles pdfFiles options w))
            (outputDir options) w2
      end.
Proof using step.
  intros H. unfold import_main.
  pose proof (processZipFiles_invariant zipFiles {| statements := []; failures := [] |} w H)
    as H1.
  destruct (processZipFiles _ _ _ _) as [r1 w1]. simpl in H1.
  pose proof (processPdfFiles_invariant pdfFiles r1 w1 H1) as H2.
  destruct (processPdfFiles _ _ _ _) as [r2 w2]. simpl in H2.
  exists w2. by split.
Qed.

End Invariant.

Lemma parseStatement_files text context w :
  files (parseStatement text context w).2 = files w.
Proof.
  unfold parseStatement. destruct text as [text|m]; [|done].
  destruct (extractStatementMeta _) as [meta|m]; [|done].
  destruct (extractOperations _ meta context) as [ops|m]; [|done].
  unfold buildStatementId.
  destruct (truthy (meta_statementYear meta) && truthy (meta_statementNumber meta)); [done|].
  destruct (truthy (entryName context)); [done|].
  by destruct (nonempty (originPath context)).
Qed.


Lemma processDocument_files text context options w :
  match processDocument text context options w with
  | (Ok p, w') =>
      (parseStatement text context w).1 = Ok (parsed p) ∧
      files w' = <[outputPath p := StatementJson (parsed p)]> (files w) ∧
      (overwrite options = false -> files w !! outputPath p = None)
  | (Err message, w') => files w' = files w
  end.
Proof.
  unfold processDocument.
  pose proof (parseStatement_files text context w) as Hfiles.
  destruct (parseStatement text context w) as [[st|m] w1]; simpl in Hfiles; [|done].
  unfold writeStatementJson.
  set (targetPath := path_join (outputDir options) _).
  destruct (overwrite options); simpl.
  - split; [done|]. by rewrite Hfiles.
  - destruct (existsSync targetPath w1) eqn:Hex; [done|].
    simpl. split; [done|]. split; [by rewrite Hfiles|].
    intros _. unfold existsSync in Hex. apply bool_decide_eq_false in Hex.
    rewrite <- Hfiles. by apply eq_None_not_Some.
Qed.


Lemma written_step options w0 text context processed w :
  overwrite options = false ->
  written w0 processed w ->
  match processDocument text context options w with
  | (Ok p, w') => written w0 (processed ++ [p]) w'
  | (Err _, w') => written w0 processed w'
  end.
Proof.
  intros Hover (Hsub & Hnd & Hdone).
  pose proof (processDocument_files text context options w) as Hd.
  destruct (processDocument text context options w) as [[p|m] w'].
  - destruct Hd as (_ & Hfiles & Hnew). specialize (Hnew Hover).
    split; [|split].
    + rewrite Hfiles. etrans; [exact Hsub|]. by apply insert_subseteq.
    + rewrite fmap_app. apply NoDup_app. split; [done|]. split; [|apply NoDup_singleton].
      intros path Hin ->%list_elem_of_singleton.
      apply list_elem_of_fmap in Hin as (q & Hq & Hin).
      destruct (Hdone q Hin) as [_ Hw]. rewrite <- Hq, Hnew in Hw. done.
    + intros q [Hin| ->%list_elem_of_singleton]%elem_of_app.
      * destruct (Hdone q Hin) as [H0 Hw]. split; [done|].
        rewrite Hfiles, lookup_insert_ne; [done|].
        intros Heq. rewrite <- Heq, Hnew in Hw. done.
      * split.
        -- destruct (files w0 !! outputPath p) as [f|] eqn:H0; [|done].
           eapply lookup_weaken in H0; [|exact Hsub]. by rewrite Hnew in H0.
        -- by rewrite Hfiles, lookup_insert_eq.
  - split; [by rewrite Hd|]. split; [done|].
    intros q Hin. destruct (Hdone q Hin) as [H0 Hw]. by rewrite Hd.
Qed.

Lemma emitAggregatedIndex_files processed outputDir w :
  files (emitAggregatedIndex processed outputDir w) =
  <[indexPath outputDir :=
      IndexJson {| index_generatedAt := clock (ticks w);
                   index_operations := aggregate processed |}]> (files w).
Proof. done. Qed.

Lemma import_main_written zipFiles pdfFiles options w :
  overwrite options = false ->
  ∃ w2,
    written w (processedStatements (import_main zipFiles pdfFiles options w)) w2 ∧
    ∀ path, path ≠ indexPath (outputDir options) ->
      files (world (import_main zipFiles pdfFiles options w)) !! path = files w2 !! path.
Proof.
  intros Hover.
  destruct (import_main_invariant options (written w)
              (fun text context processed w' =>
                 written_step options w text context processed w' Hover)
              zipFiles pdfFiles w) as (w2 & Hw & Hworld).
  { split; [done|]. split; [apply NoDup_nil_2|]. by intros p ?%elem_of_nil. }
  exists w2. split; [done|]. intros path Hpath. rewrite Hworld.
  destruct (processedStatements _); [done|].
  by rewrite emitAggregatedIndex_files, lookup_insert_ne.
Qed.


(** Without [--overwrite] the statements that a run reports as processed
    have pairwise distinct output paths, none of which existed before the
    run, and at the end of the run each is in the file of its output path
    (but for a statement whose output path is that of the index). *)
Theorem processed_statements_written zipFiles pdfFiles options w :
  overwrite options = false ->
  NoDup (outputPath <$> processedStatements (import_main zipFiles pdfFiles options w)) ∧
  ∀ p, p ∈ processedStatements (import_main zipFiles pdfFiles options w) ->
    files w !! outputPath p = None ∧
    (outputPath p ≠ indexPath (outputDir options) ->
     files (world (import_main zipFiles pdfFiles options w)) !! outputPath p =
     Some (StatementJson (parsed p))).
Proof.
  intros Hover.
  destruct (import_main_written zipFiles pdfFiles options w Hover)
    as (w2 & (_ & Hnd & Hdone) & Hworld).
  split; [done|]. intros p Hp. destruct (Hdone p Hp) as [H0 Hw].
  split; [done|]. intros Hpath. by rewrite Hworld.
Qed.

(** ** The operations of a parsed statement *)






(** ** The index, from the importer to the matcher *)









(** ** Amounts in cents *)

Lemma Qfloor_unique (x : Q) (n : Z) :
  (inject_Z n <= x)%Q -> (x < inject_Z (n + 1))%Q -> Qfloor x = n.
Proof.
  intros Hle Hlt.
  pose proof (Qfloor_le x) as H1. pose proof (Qlt_floor x) as H2.
  assert (Ha : (inject_Z n < inject_Z (Qfloor x + 1))%Q) by (eapply Qle_lt_trans; eauto).
  assert (Hb : (inject_Z (Qfloor x) < inject_Z (n + 1))%Q) by (eapply Qle_lt_trans; eauto).
  rewrite <- Zlt_Qlt in Ha, Hb. lia.
Qed.


Lemma Math_round_inject_Z (n : Z) : Math_round (inject_Z n) = n.
Proof.
  unfold Math_round. apply Qfloor_unique; [lra|].
  rewrite inject_Z_plus. change (inject_Z 1) with 1%Q. lra.
Qed.



(** ** The ranking of the candidates *)

Lemma compareCandidates_ranks (a b : Candidate) :
  Qleb (compareCandidates a b) 0 = true ↔ ranks_before a b.
Proof.
  rewrite Qleb_true. unfold compareCandidates, ranks_before, dayKey.
  set (dayA := default MAX_SAFE_INTEGER (daysDiff a)).
  set (dayB := default MAX_SAFE_INTEGER (daysDiff b)).
  destruct (Qeq_bool dayA dayB) eqn:Hday; simpl.
  - apply Qeq_bool_iff in Hday.
    destruct (refScore a =? refScore b) eqn:Href; simpl.
    + apply Z.eqb_eq in Href.
      destruct (nameScore a =? nameScore b) eqn:Hname; simpl.
      * apply Z.eqb_eq in Hname. split; [|done].
        intros _. right. split; [done|]. right. split; [done|lia].
      * apply Z.eqb_neq in Hname. rewrite <- (Zle_Qle _ 0). split.
        -- intros H. right. split; [done|]. right. split; [done|lia].
        -- intros [H|(_ & [H|[_ H]])]; [lra|lia|lia].
    + apply Z.eqb_neq in Href. rewrite <- (Zle_Qle _ 0). split.
      * intros H. right. split; [done|]. left. lia.
      * intros [H|(_ & [H|[H _]])]; [lra|lia|lia].
  - assert (Hne : ¬ (dayA == dayB)%Q).
    { intros H. apply Qeq_bool_iff in H. congruence. }
    split.
    + intros H. left. apply Qle_lt_or_eq in H as [H|H]; [lra|].
      exfalso. apply Hne. lra.
    + intros [H|[H _]]; [lra|done].
Qed.

Lemma ranks_before_total (a b : Candidate) : ranks_before a b ∨ ranks_before b a.
Proof.
  unfold ranks_before.
  destruct (Q_dec (dayKey a) (dayKey b)) as [[H|H]|H]; [by left; left|by right; left|].
  destruct (Z.lt_trichotomy (refScore a) (refScore b)) as [Hr|[Hr|Hr]].
  - right. right. split; [by symmetry|]. by left.
  - destruct (Z.le_ge_cases (nameScore a) (nameScore b)).
    + right. right. split; [by symmetry|]. right. by split.
    + left. right. split; [done|]. right. by split.
  - left. right. split; [done|]. by left.
Qed.

Lemma ranks_before_trans (a b c : Candidate) :
  ranks_before a b -> ranks_before b c -> ranks_before a c.
Proof.
  unfold ranks_before.
  intros [H1|[H1 H1']] [H2|[H2 H2']].
  - left. lra.
  - left. lra.
  - left. lra.
  - right. split; [lra|]. lia.
Qed.

Lemma sort_insert_sorted (x : Candidate) (l : list Candidate) :
  StronglySorted ranks_before l ->
  StronglySorted ranks_before (sort_insert compareCandidates x l).
Proof.
  induction 1 as [|y l Hsorted IH Hall]; simpl.
  { apply SSorted_cons; [apply SSorted_nil|apply Forall_nil_2]. }
  destruct (Qleb (compareCandidates x y) 0) eqn:Hcmp.
  - apply compareCandidates_ranks in Hcmp.
    apply SSorted_cons; [by apply SSorted_cons|].
    apply Forall_cons_2; [done|].
    eapply Forall_impl; [exact Hall|]. intros z Hz. by eapply ranks_before_trans.
  - apply SSorted_cons; [done|].
    rewrite (sort_insert_perm compareCandidates x l). apply Forall_cons_2; [|done].
    destruct (ranks_before_total x y) as [H|H]; [|done].
    apply compareCandidates_ranks in H. congruence.
Qed.

Lemma sort_sorted (l : list Candidate) :
  StronglySorted ranks_before (sort compareCandidates l).
Proof.
  induction l as [|x l IH]; simpl; [apply SSorted_nil|]. by apply sort_insert_sorted.
Qed.

(** The candidates returned for an invoice are the five best, or all of
    them when there are no more than five, in the order of their rank: by
    day difference, the smaller first, then by reference score and by
    name score, the higher first.  Every candidate that is left out
    ranks no better than each of the five returned. *)
Theorem findMatches_ranked invoice operations :
  (length (findMatchesForInvoice invoice operations) <= 5)%nat ∧
  StronglySorted ranks_before (findMatchesForInvoice invoice operations) ∧
  ∃ dropped,
    (collectCandidates invoice operations).2 ≡ₚ
      findMatchesForInvoice invoice operations ++ dropped ∧
    (∀ a b, a ∈ findMatchesForInvoice invoice operations -> b ∈ dropped ->
            ranks_before a b) ∧
    (dropped = [] ∨ length (findMatchesForInvoice invoice operations) = 5%nat).
Proof.
  unfold findMatchesForInvoice.
  set (sorted := sort compareCandidates (collectCandidates invoice operations).2).
  pose proof (sort_sorted (collectCandidates invoice operations).2) as Hsorted.
  fold sorted in Hsorted. rewrite <- (take_drop 5 sorted) in Hsorted.
  split; [rewrite length_take; lia|].
  split; [by apply StronglySorted_app_1_l in Hsorted|].
  exists (drop 5 sorted). split; [|split].
  - rewrite take_drop. symmetry. apply sort_perm.
  - intros a b Ha Hb. by eapply StronglySorted_app_1_elem_of.
  - destruct (decide (length sorted <= 5)%nat) as [Hlen|Hlen].
    + left. by apply drop_ge.
    + right. rewrite length_take. lia.
Qed.

(** ** What a candidate is *)



(** ** The confidence of a candidate *)

Lemma Qleb_false (x y : Q) : Qleb x y = false ↔ (y < x)%Q.
Proof.
  unfold Qleb. rewrite <- not_true_iff_false, Qle_bool_iff. split.
  - apply Qnot_le_lt.
  - intros H1 H2. by apply (Qlt_not_le _ _ H1).
Qed.

Lemma Math_round_mono (x y : Q) : (x <= y)%Q -> Math_round x <= Math_round y.
Proof. intros H. unfold Math_round. apply Qfloor_resp_le. lra. Qed.

Lemma clamp_mono (x y : Q) :
  (x <= y)%Q -> Z.max 10 (Z.min 99 (Math_round x)) <= Z.max 10 (Z.min 99 (Math_round y)).
Proof. intros H. apply Math_round_mono in H. lia. Qed.

Lemma far_bonus_bounds (d : Q) :
  (- 9 <= 1 - Qmin 10 (Qmax 0 (d - 120) * (1 # 10)) <= 1)%Q.
Proof.
  destruct (Q.max_spec 0 (d - 120)) as [[H1 H2]|[H1 H2]];
    destruct (Q.min_spec 10 (Qmax 0 (d - 120) * (1 # 10))) as [[H3 H4]|[H3 H4]];
    rewrite H4; rewrite ?H2; rewrite H2 in H3; lra.
Qed.

Lemma far_bonus_antitone (d1 d2 : Q) :
  (d1 <= d2)%Q ->
  (1 - Qmin 10 (Qmax 0 (d2 - 120) * (1 # 10)) <=
   1 - Qmin 10 (Qmax 0 (d1 - 120) * (1 # 10)))%Q.
Proof.
  intros Hle.
  destruct (Q.max_spec 0 (d1 - 120)) as [[H1 H2]|[H1 H2]];
    destruct (Q.max_spec 0 (d2 - 120)) as [[H1' H2']|[H1' H2']];
    destruct (Q.min_spec 10 (Qmax 0 (d1 - 120) * (1 # 10))) as [[H3 H4]|[H3 H4]];
    destruct (Q.min_spec 10 (Qmax 0 (d2 - 120) * (1 # 10))) as [[H3' H4']|[H3' H4']];
    rewrite H4, H4'; rewrite ?H2, ?H2'; rewrite H2 in H3; rewrite H2' in H3'; lra.
Qed.

Lemma date_bonus_antitone (d1 d2 : Q) :
  (d1 <= d2)%Q -> (date_bonus (Some d2) <= date_bonus (Some d1))%Q.
Proof.
  intros Hle. unfold date_bonus.
  pose proof (far_bonus_bounds d2) as Hfar.
  pose proof (far_bonus_antitone d1 d2 Hle) as Hmono.
  repeat match goal with
         | |- context [Qleb ?a ?b] =>
             let H := fresh "Hq" in
             destruct (Qleb a b) eqn:H;
             [apply Qleb_true in H|apply Qleb_false in H]
         end; lra.
Qed.

Lemma date_bonus_bounds (daysDiff : option Q) : (- 9 <= date_bonus daysDiff <= 30)%Q.
Proof.
  destruct daysDiff as [d|]; simpl; [|lra].
  pose proof (far_bonus_bounds d) as Hfar.
  repeat match goal with
         | |- context [Qleb ?a ?b] => destruct (Qleb a b)
         end; lra.
Qed.

Lemma computeConfidence_sum daysDiff refScore nameScore targetLabel :
  computeConfidence daysDiff refScore nameScore targetLabel =
  Z.max 10 (Z.min 99 (Math_round
    (50 + date_bonus daysDiff +
     (if 3 <=? refScore then 15
      else if refScore =? 2 then 12 else if refScore =? 1 then 8 else 0) +
     (if 3 <=? nameScore then 10
      else if nameScore =? 2 then 8
      else if nameScore =? 1 then 6 else if nameScore =? 0 then - 2 else 0) +
     (if nonempty targetLabel && includes (toLowerCase targetLabel) "partial"
      then - 5 else 0))%Q)).
Proof.
  unfold computeConfidence. cbv zeta.
  destruct (3 <=? refScore); [|destruct (refScore =? 2); [|destruct (refScore =? 1)]];
    (destruct (3 <=? nameScore);
     [|destruct (nameScore =? 2);
       [|destruct (nameScore =? 1); [|destruct (nameScore =? 0)]]]);
    destruct (nonempty targetLabel && includes (toLowerCase targetLabel) "partial");
    do 2 f_equal; unfold Math_round; apply Qfloor_comp; lra.
Qed.

(** The confidence of a candidate is a whole number from 10 to 99.  It
    does not grow with the day difference, it does not shrink when the
    reference score grows, nor when the name score does (a name score is
    not negative). *)
Theorem computeConfidence_monotone refScore nameScore targetLabel :
  (∀ daysDiff, 10 <= computeConfidence daysDiff refScore nameScore targetLabel <= 99) ∧
  (∀ d1 d2, (d1 <= d2)%Q ->
     computeConfidence (Some d2) refScore nameScore targetLabel <=
     computeConfidence (Some d1) refScore nameScore targetLabel) ∧
  (∀ daysDiff refScore', refScore <= refScore' ->
     computeConfidence daysDiff refScore nameScore targetLabel <=
     computeConfidence daysDiff refScore' nameScore targetLabel) ∧
  (∀ daysDiff nameScore', 0 <= nameScore <= nameScore' ->
     computeConfidence daysDiff refScore nameScore targetLabel <=
     computeConfidence daysDiff refScore nameScore' targetLabel).
Proof.
  split; [|split; [|split]].
  - intros daysDiff. unfold computeConfidence. lia.
  - intros d1 d2 Hle. rewrite !computeConfidence_sum. apply clamp_mono.
    pose proof (date_bonus_antitone d1 d2 Hle). lra.
  - intros daysDiff refScore' Hle. rewrite !computeConfidence_sum. apply clamp_mono.
    assert ((if 3 <=? refScore then 15
             else if refScore =? 2 then 12 else if refScore =? 1 then 8 else 0) <=
            (if 3 <=? refScore' then 15
             else if refScore' =? 2 then 12 else if refScore' =? 1 then 8 else 0))%Q.
    { destruct (Z.leb_spec 3 refScore), (Z.eqb_spec refScore 2), (Z.eqb_spec refScore 1),
        (Z.leb_spec 3 refScore'), (Z.eqb_spec refScore' 2), (Z.eqb_spec refScore' 1);
        try lia; lra. }
    lra.
  - intros daysDiff nameScore' Hle. rewrite !computeConfidence_sum. apply clamp_mono.
    assert ((if 3 <=? nameScore then 10
             else if nameScore =? 2 then 8
             else if nameScore =? 1 then 6 else if nameScore =? 0 then - 2 else 0) <=
            (if 3 <=? nameScore' then 10
             else if nameScore' =? 2 then 8
             else if nameScore' =? 1 then 6 else if nameScore' =? 0 then - 2 else 0))%Q.
    { destruct (Z.leb_spec 3 nameScore), (Z.eqb_spec nameScore 2), (Z.eqb_spec nameScore 1),
        (Z.eqb_spec nameScore 0),
        (Z.leb_spec 3 nameScore'), (Z.eqb_spec nameScore' 2), (Z.eqb_spec nameScore' 1),
        (Z.eqb_spec nameScore' 0); try lia; lra. }
    lra.
Qed.

(** ** Tokens and the name score *)

















Lemma map_chars_nonempty (f : ascii -> ascii) (s : string) :
  nonempty (map_chars f s) = nonempty s.
Proof. by destruct s. Qed.









(** ** Day differences *)

(** The day difference is infinite exactly when one of the two dates is
    missing.  Otherwise it does not depend on the order of the two dates,
    it is not negative, it is zero for equal instants only, and for two
    instants a whole number of days apart it is that number. *)
Theorem diffDays_distance (a b : option Z) :
  (diffDays a b = Infinity ↔ a = None ∨ b = None) ∧
  diffDays a b = diffDays b a ∧
  (∀ d, diffDays a b = Finite d ->
     (0 <= d)%Q ∧
     ((d == 0)%Q ↔ a = b) ∧
     (∀ ta tb k, a = Some ta -> b = Some tb -> ta - tb = k * 86400000 ->
                 (d == inject_Z (Z.abs k))%Q)).
Proof.
  destruct a as [ta|], b as [tb|]; unfold diffDays.
  2-4: (split; [split; [intros _|done]; (by left) || (by right)|]; by split).
  assert (Hnum : ∀ x y : Z,
            (Qabs (inject_Z (x - y) / inject_Z (24 * 60 * 60 * 1000)) ==
             inject_Z (Z.abs (x - y)) / 86400000)%Q).
  { intros x y. unfold Qeq, Qabs, Qdiv, Qmult, Qinv, inject_Z. simpl. lia. }
  split; [|split].
  - split; [done|]. by intros [?|?].
  - f_equal. unfold Qabs, Qdiv, Qmult, Qinv, inject_Z. simpl. f_equal. lia.
  - intros d Hd.
    assert (Hd' : d = Qabs (inject_Z (ta - tb) / inject_Z (24 * 60 * 60 * 1000)))
      by congruence.
    rewrite Hd'. clear Hd Hd'.
    split; [apply Qabs_nonneg|]. split.
    + rewrite Hnum. split.
      * intros H. f_equal.
        revert H. unfold Qeq, Qdiv, Qmult, Qinv, inject_Z. simpl. lia.
      * intros [= ->]. rewrite Z.sub_diag. reflexivity.
    + intros ta' tb' k [= <-] [= <-] Hk. rewrite Hnum, Hk.
      unfold Qeq, Qdiv, Qmult, Qinv, inject_Z. simpl. lia.
Qed.

(** ** The report of the matcher *)

Lemma filter_sublist {A} (p : A -> bool) (l : list A) : sublist (List.filter p l) l.
Proof.
  induction l as [|x l IH]; simpl; [done|].
  destruct (p x); [by apply sublist_skip|by apply sublist_cons].
Qed.

Lemma report_sublist {A B} (f : A -> B) (p : A * B -> bool) (l : list A) :
  sublist (List.filter p ((fun x => (x, f x)) <$> l)).*1 l.
Proof.
  induction l as [|x l IH]; simpl; [done|].
  destruct (p (x, f x)); simpl; [by apply sublist_skip|by apply sublist_cons].
Qed.

(** The report of the matcher lists, in the order in which the service
    sent them, the open invoices that have candidates, each with the
    candidates that [findMatchesForInvoice] returns for it.  With a
    usable date for [--since], an invoice is listed only when its invoice
    date, or else its due date, is usable and not before that date; a
    date for [--since] that cannot be read filters nothing. *)
Theorem match_main_report env indexPath indexFile pageData since report :
  match_main env indexPath indexFile pageData since = Ok report ->
  ∃ operations,
    loadOperations indexPath indexFile = Ok operations ∧
    sublist report.*1 pageData ∧
    (∀ invoice candidates, (invoice, candidates) ∈ report ->
       is_open_invoice invoice = true ∧
       candidates = findMatchesForInvoice invoice operations ∧
       candidates ≠ [] ∧
       (∀ sinceDate, parseDate since = Some sinceDate ->
          ∃ invDate, invoiceDateOf invoice = Some invDate ∧ sinceDate <= invDate)) ∧
    (parseDate since = None ->
     ∀ invoice, invoice ∈ pageData -> is_open_invoice invoice = true ->
       findMatchesForInvoice invoice operations ≠ [] ->
       (invoice, findMatchesForInvoice invoice operations) ∈ report).
Proof.
  unfold match_main.
  destruct (requireEnv "INVOICE_NINJA_KEY" env) as [token|m]; [|done]. simpl.
  destruct (loadOperations indexPath indexFile) as [operations|m]; [|done]. simpl.
  destruct operations as [|op0 ops]; [done|].
  set (operations := op0 :: ops).
  intros [= <-]. exists operations. split; [done|].
  set (invoices := List.filter is_open_invoice pageData).
  set (filteredInvoices := match parseDate since with Some _ => _ | None => _ end).
  assert (Hsub : sublist filteredInvoices pageData).
  { unfold filteredInvoices. destruct (parseDate since).
    - etrans; apply filter_sublist.
    - apply filter_sublist. }
  split; [|split].
  - etrans; [apply report_sublist|done].
  - intros invoice candidates Hin.
    apply filter_elem_of in Hin as [Hin Hne]. apply bool_decide_eq_true in Hne.
    apply list_elem_of_fmap in Hin as (invoice' & [= <- ->] & Hin).
    simpl in Hne.
    assert (Hopen : is_open_invoice invoice = true ∧
              ∀ sinceDate, parseDate since = Some sinceDate ->
                ∃ invDate, invoiceDateOf invoice = Some invDate ∧ sinceDate <= invDate).
    { unfold filteredInvoices in Hin. destruct (parseDate since) as [sinceDate|].
      - apply filter_elem_of in Hin as [Hin Hsince].
        apply filter_elem_of in Hin as [_ Hopen]. split; [done|].
        intros ? [= <-]. destruct (invoiceDateOf invoice) as [invDate|]; [|done].
        exists invDate. split; [done|]. by apply Z.leb_le.
      - apply filter_elem_of in Hin as [_ Hopen]. by split. }
    destruct Hopen as [Hopen Hsince]. by repeat split.
  - intros Hnone invoice Hin Hopen Hne.
    apply filter_elem_of. split; [|by apply bool_decide_eq_true].
    apply list_elem_of_fmap. exists invoice. split; [done|].
    unfold filteredInvoices. rewrite Hnone. by apply filter_elem_of.
Qed.

(** ** The shape of a parsed operation *)




(** ** Every document is accounted for *)






End Program.

(** ** Rebuilding the index *)

Section Rebuild.

Variable path_join : string -> string -> string.
Variable path_basename : string -> option string -> string.
(** the clocks of the two runs *)
Variables clock1 clock2 : nat -> Z.

Lemma buildStatementId_named meta context :
  named context ->
  ∃ id, ∀ clock' w', buildStatementId path_basename clock' meta context w' = (id, w').
Proof.
  unfold named, buildStatementId. intros Hn.
  destruct (truthy (meta_statementYear meta) && truthy (meta_statementNumber meta));
    [by eexists|].
  destruct (truthy (entryName context)); [by eexists|].
  simpl in Hn. rewrite Hn. by eexists.
Qed.

Lemma parseStatement_two_clocks text context w1 w2 :
  named context ->
  (∃ m, parseStatement path_basename clock1 text context w1 = (Err m, w1) ∧
        parseStatement path_basename clock2 text context w2 = (Err m, w2)) ∨
  (∃ s1 s2 w1' w2',
      parseStatement path_basename clock1 text context w1 = (Ok s1, w1') ∧
      parseStatement path_basename clock2 text context w2 = (Ok s2, w2') ∧
      erase_generatedAt s1 = erase_generatedAt s2 ∧
      files w1' = files w1 ∧ files w2' = files w2).
Proof.
  intros Hn. unfold parseStatement.
  destruct text as [text|m]; [|left; by eexists].
  destruct (extractStatementMeta _) as [meta|m]; [|left; by eexists].
  destruct (extractOperations _ _ _) as [ops|m]; [|left; by eexists].
  destruct (buildStatementId_named meta context Hn) as [id Hid].
  rewrite !Hid. right. unfold read_clock. by eexists _, _, _, _.
Qed.

Lemma existsSync_same path w1 w2 :
  same_existing w1 w2 -> existsSync path w1 = existsSync path w2.
Proof.
  intros Hdom. unfold existsSync. apply bool_decide_ext.
  rewrite <- !elem_of_dom. unfold same_existing in Hdom. by rewrite Hdom.
Qed.

Lemma writeFile_same path f1 f2 w1 w2 :
  same_existing w1 w2 -> same_existing (writeFile path f1 w1) (writeFile path f2 w2).
Proof.
  unfold same_existing, writeFile. simpl. intros Hdom.
  by rewrite !dom_insert_L, Hdom.
Qed.

Lemma processDocument_two_clocks text context options w1 w2 :
  named context -> worlds_ok options w1 w2 ->
  (∃ m w1' w2',
      processDocument path_join path_basename clock1 text context options w1 = (Err m, w1') ∧
      processDocument path_join path_basename clock2 text context options w2 = (Err m, w2') ∧
      worlds_ok options w1' w2') ∨
  (∃ p1 p2 w1' w2',
      processDocument path_join path_basename clock1 text context options w1 = (Ok p1, w1') ∧
      processDocument path_join path_basename clock2 text context options w2 = (Ok p2, w2') ∧
      same_processed p1 p2 ∧ worlds_ok options w1' w2').
Proof.
  intros Hn Hw. unfold processDocument.
  destruct (parseStatement_two_clocks text context w1 w2 Hn)
    as [(m & -> & ->)|(s1 & s2 & w1' & w2' & -> & -> & Hs & Hf1 & Hf2)].
  { left. by eexists _, _, _. }
  assert (worlds_ok options w1' w2') as Hw'.
  { destruct Hw as [Ho|Hd]; [by left|right].
    unfold same_existing in Hd |- *. by rewrite Hf1, Hf2. }
  unfold writeStatementJson.
  assert (statementId s1 = statementId s2) as Hid
    by exact (f_equal statementId Hs).
  assert (source s1 = source s2) as Hsrc by exact (f_equal source Hs).
  rewrite Hid, Hsrc.
  set (targetPath := path_join _ _).
  destruct Hw' as [Ho|Hd].
  - rewrite Ho. simpl. right. eexists _, _, _, _.
    split; [done|]. split; [done|]. split; [by split|]. by left.
  - rewrite (existsSync_same targetPath w1' w2' Hd).
    destruct (negb (overwrite options) && existsSync targetPath w2').
    + left. eexists _, _, _. split; [done|]. split; [done|]. by right.
    + right. eexists _, _, _, _.
      split; [done|]. split; [done|]. split; [by split|].
      right. by apply writeFile_same.
Qed.

Lemma pdf_entry_named zipPath entry :
  endsWith (toLowerCase (ze_entryName entry)) ".pdf" = true ->
  named {| source_type := "zip"; originPath := zipPath;
           entryName := Some (ze_entryName entry) |}.
Proof.
  unfold named. simpl. destruct (ze_entryName entry); [done|]. by intros _.
Qed.

Lemma processZipEntries_two_clocks zipPath options entries acc1 acc2 w1 w2 :
  batches_ok acc1 acc2 -> worlds_ok options w1 w2 ->
  batches_ok
    (processZipEntries path_join path_basename clock1 zipPath options entries acc1 w1).1
    (processZipEntries path_join path_basename clock2 zipPath options entries acc2 w2).1 ∧
  worlds_ok options
    (processZipEntries path_join path_basename clock1 zipPath options entries acc1 w1).2
    (processZipEntries path_join path_basename clock2 zipPath options entries acc2 w2).2.
Proof.
  revert acc1 acc2 w1 w2.
  induction entries as [|entry rest IH]; intros acc1 acc2 w1 w2 Hacc Hw; simpl; [done|].
  destruct (ze_isDirectory entry); [by apply IH|].
  destruct (endsWith _ _) eqn:Hext; simpl; [|by apply IH].
  destruct (processDocument_two_clocks (ze_text entry)
              {| source_type := "zip"; originPath := zipPath;
                 entryName := Some (ze_entryName entry) |} options w1 w2
              (pdf_entry_named zipPath entry Hext) Hw)
    as [(m & w1' & w2' & -> & -> & Hw')|(p1 & p2 & w1' & w2' & -> & -> & Hp & Hw')].
  - apply IH; [|done]. destruct Hacc as [Hs Hf]. split; simpl; [done|]. by rewrite Hf.
  - apply IH; [|done]. destruct Hacc as [Hs Hf]. split; simpl; [|done].
    apply Forall2_app; [done|]. by apply Forall2_cons.
Qed.

Lemma processZipFiles_two_clocks zipFiles options acc1 acc2 w1 w2 :
  batches_ok acc1 acc2 -> worlds_ok options w1 w2 ->
  batches_ok
    (processZipFiles path_join path_basename clock1 zipFiles options acc1 w1).1
    (processZipFiles path_join path_basename clock2 zipFiles options acc2 w2).1 ∧
  worlds_ok options
    (processZipFiles path_join path_basename clock1 zipFiles options acc1 w1).2
    (processZipFiles path_join path_basename clock2 zipFiles options acc2 w2).2.
Proof.
  revert acc1 acc2 w1 w2.
  induction zipFiles as [|[zipPath entries] rest IH]; intros acc1 acc2 w1 w2 Hacc Hw;
    simpl; [done|].
  unfold processZipArchive.
  pose proof (processZipEntries_two_clocks zipPath options entries
                {| statements := []; failures := [] |}
                {| statements := []; failures := [] |} w1 w2) as Hz.
  destruct (processZipEntries path_join path_basename clock1 _ _ _ _ w1) as [z1 w1'].
  destruct (processZipEntries path_join path_basename clock2 _ _ _ _ w2) as [z2 w2'].
  destruct Hz as [[Hzs Hzf] Hw']; [by split|done|]. simpl in Hzs, Hzf, Hw'.
  apply IH; [|done]. destruct Hacc as [Hs Hf]. split; simpl.
  - by apply Forall2_app.
  - by rewrite Hf, Hzf.
Qed.

Lemma processPdfFiles_two_clocks pdfFiles options acc1 acc2 w1 w2 :
  Forall (fun pdf => nonempty pdf.1 = true) pdfFiles ->
  batches_ok acc1 acc2 -> worlds_ok options w1 w2 ->
  batches_ok
    (processPdfFiles path_join path_basename clock1 pdfFiles options acc1 w1).1
    (processPdfFiles path_join path_basename clock2 pdfFiles options acc2 w2).1 ∧
  worlds_ok options
    (processPdfFiles path_join path_basename clock1 pdfFiles options acc1 w1).2
    (processPdfFiles path_join path_basename clock2 pdfFiles options acc2 w2).2.
Proof.
  intros Hpaths. revert acc1 acc2 w1 w2.
  induction Hpaths as [|[pdfPath text] rest Hpath _ IH]; intros acc1 acc2 w1 w2 Hacc Hw;
    simpl; [done|].
  unfold processSinglePdf.
  destruct (processDocument_two_clocks text
              {| source_type := "pdf"; originPath := pdfPath; entryName := None |}
              options w1 w2 Hpath Hw)
    as [(m & w1' & w2' & -> & -> & Hw')|(p1 & p2 & w1' & w2' & -> & -> & Hp & Hw')].
  - apply IH; [|done]. destruct Hacc as [Hs Hf]. split; simpl.
    + by rewrite !app_nil_r.
    + by rewrite Hf.
  - apply IH; [|done]. destruct Hacc as [Hs Hf]. split; simpl.
    + apply Forall2_app; [done|]. by apply Forall2_cons.
    + by rewrite !app_nil_r.
Qed.

Lemma index_entry_same p1 p2 op :
  same_processed p1 p2 -> index_entry path_basename p1 op = index_entry path_basename p2 op.
Proof.
  intros [Hs Ho]. unfold index_entry. rewrite Ho.
  change (statementId (parsed p1)) with (statementId (erase_generatedAt (parsed p1))).
  change (account (parsed p1)) with (account (erase_generatedAt (parsed p1))).
  change (statementYear (parsed p1)) with (statementYear (erase_generatedAt (parsed p1))).
  change (statementNumber (parsed p1)) with (statementNumber (erase_generatedAt (parsed p1))).
  by rewrite Hs.
Qed.

Lemma aggregate_same l1 l2 :
  Forall2 same_processed l1 l2 -> aggregate path_basename l1 = aggregate path_basename l2.
Proof.
  unfold aggregate. induction 1 as [|p1 p2 l1 l2 Hp _ IH]; [done|].
  rewrite !bind_cons, IH. f_equal.
  assert (operations (parsed p1) = operations (parsed p2)) as ->
    by exact (f_equal operations (proj1 Hp)).
  apply list_fmap_ext. intros _ op _. by apply index_entry_same.
Qed.

(** C6: two runs of the importer on the same documents with the same
    options, whatever their clocks show, from two states of the output
    directory in which the same files exist, or from any two states when
    [--overwrite] is set, record the same failures and build the same
    [operations] array; the two index artifacts differ at most in
    [generatedAt].  The stand-alone PDF files have a path, as those that
    [collectSources] finds have. *)
Theorem index_rebuild_deterministic zipFiles pdfFiles options w1 w2 :
  Forall (fun pdf => nonempty pdf.1 = true) pdfFiles ->
  worlds_ok options w1 w2 ->
  let r1 := import_main path_join path_basename clock1 zipFiles pdfFiles options w1 in
  let r2 := import_main path_join path_basename clock2 zipFiles pdfFiles options w2 in
  let operations := aggregate path_basename (processedStatements r1) in
  run_failures r2 = run_failures r1 ∧
  aggregate path_basename (processedStatements r2) = operations ∧
  (processedStatements r1 <> [] ->
   ∃ t1 t2,
     files (world r1) !! indexPath path_join (outputDir options) =
       Some (IndexJson {| index_generatedAt := t1; index_operations := operations |}) ∧
     files (world r2) !! indexPath path_join (outputDir options) =
       Some (IndexJson {| index_generatedAt := t2; index_operations := operations |})).
Proof.
  intros Hpaths Hw. unfold import_main.
  pose proof (processZipFiles_two_clocks zipFiles options
                {| statements := []; failures := [] |}
                {| statements := []; failures := [] |} w1 w2) as Hz.
  destruct (processZipFiles path_join path_basename clock1 _ _ _ w1) as [a1 v1].
  destruct (processZipFiles path_join path_basename clock2 _ _ _ w2) as [a2 v2].
  destruct Hz as [Ha Hv]; [by split|done|]. simpl in Ha, Hv.
  pose proof (processPdfFiles_two_clocks pdfFiles options a1 a2 v1 v2 Hpaths Ha Hv) as Hp.
  destruct (processPdfFiles path_join path_basename clock1 _ _ _ v1) as [b1 u1].
  destruct (processPdfFiles path_join path_basename clock2 _ _ _ v2) as [b2 u2].
  destruct Hp as [[Hs Hf] _]. simpl in Hs, Hf. cbn [processedStatements run_failures world].
  pose proof (aggregate_same _ _ Hs) as Hagg.
  split; [done|]. split; [done|].
  intros Hne. inversion Hs as [Hn1 Hn2|p1 p2 l1 l2 Hp12 Hl12 Hn1 Hn2].
  { by rewrite <- Hn1 in Hne. }
  exists (clock1 (ticks u1)), (clock2 (ticks u2)).
  unfold emitAggregatedIndex, read_clock, writeFile. cbn [files].
  rewrite !lookup_insert_eq. rewrite Hn1, Hn2. by rewrite <- Hagg.
Qed.

End Rebuild.

(** ** The loops of the parser end within their fuel *)




Lemma consumeValue_scan_length rest value rest' :
  consumeValue_scan rest = Some (value, rest') -> (length rest' < length rest)%nat.
Proof.
  revert value rest'. induction rest as [|candidate rest IH]; intros value rest'; simpl;
    [done|].
  destruct (negb (nonempty candidate)).
  - intros H. apply IH in H. lia.
  - destruct (includes candidate ":"); [done|]. intros [= _ <-]. lia.
Qed.

Lemma consumeValue_length line rest :
  (length (consumeValue line rest).2 <= length rest)%nat.
Proof.
  unfold consumeValue. destruct (nonempty _); [done|].
  destruct (consumeValue_scan rest) as [[v rest']|] eqn:Hscan; [|done].
  apply consumeValue_scan_length in Hscan. simpl. lia.
Qed.

(** Likewise for the loop of [parseDetailLines]. *)
Lemma parseDetailLines_loop_fuel fuel1 fuel2 lines details residual :
  (length lines <= fuel1)%nat -> (length lines <= fuel2)%nat ->
  parseDetailLines_loop fuel1 lines details residual =
  parseDetailLines_loop fuel2 lines details residual.
Proof.
  revert fuel2 lines details residual.
  induction fuel1 as [|fuel1 IH]; intros fuel2 lines details residual H1 H2.
  { destruct lines; [|simpl in H1; lia]. by destruct fuel2. }
  destruct fuel2 as [|fuel2].
  { destruct lines; [done|simpl in H2; lia]. }
  destruct lines as [|line rest]; [done|]. simpl in H1, H2. simpl.
  pose proof (consumeValue_length line rest) as Hc.
  destruct (consumeValue line rest) as [value rest']. simpl in Hc.
  repeat (destruct (_ : bool); [apply IH; lia|]).
  destruct (parseIbanLine line) as [[iban cur]|]; [apply IH; lia|].
  destruct (BIC_test _); apply IH; lia.
Qed.

(** ** The operations of the table *)




















(** ** The details of an operation *)








(** ** Account lines *)

Local Arguments String.append !_ _ / : simpl nomatch.


















(** ** Amounts in the notation of the statements *)


Lemma trimStart_digits (s : string) :
  all_chars is_digit s = true -> trimStart s = s.
Proof.
  destruct s as [|c s]; simpl; [done|].
  intros [Hc _]%andb_true_iff. by rewrite (digit_not_space c Hc).
Qed.











(** ** Dates *)

Lemma digitsN_complete (n : nat) (d r : string) :
  all_chars is_digit d = true -> String.length d = n -> digitsN n (d +:+ r) = Some (d, r).
Proof.
  revert d. induction n as [|n IH]; intros d Hall Hlen.
  { by destruct d. }
  destruct d as [|c d]; [done|]. simpl in *.
  apply andb_true_iff in Hall as [Hc Hd]. rewrite Hc, IH; [done|done|lia].
Qed.

Lemma toIsoDate_accepts day month year :
  all_chars is_digit day = true -> String.length day = 2%nat ->
  all_chars is_digit month = true -> String.length month = 2%nat ->
  all_chars is_digit year = true -> String.length year = 4%nat ->
  toIsoDate (day +:+ String "-" (month +:+ String "-" year)) =
  Some (year +:+ String "-" (month +:+ String "-" day)).
Proof.
  intros Hd Hdl Hmo Hml Hy Hyl. unfold toIsoDate.
  replace (nonempty (day +:+ String "-" (month +:+ String "-" year))) with true
    by (by destruct day).
  assert (Hbind : ∀ (A B : Type) (f : A -> option B) (x : A), Some x ≫= f = f x) by done.
  unfold match_ISO_DATE.
  rewrite (digitsN_complete 2 day _ Hd Hdl), Hbind. cbn [expect].
  change (Ascii.eqb "-" "-") with true. cbv iota. rewrite Hbind.
  rewrite (digitsN_complete 2 month _ Hmo Hml), Hbind. cbn [expect].
  change (Ascii.eqb "-" "-") with true. cbv iota. rewrite Hbind.
  rewrite <- (append_nil_r year) at 1.
  by rewrite (digitsN_complete 4 year _ Hy Hyl), Hbind.
Qed.

(** [toIsoDate] reads the dates written [DD-MM-YYYY], two digits, two
    digits and four digits between hyphens, and these only, and writes
    them [YYYY-MM-DD]; it does not look at what day, month and year are. *)
Theorem toIsoDate_reorders dateString iso :
  toIsoDate dateString = Some iso ↔
  ∃ day month year,
    all_chars is_digit day = true ∧ String.length day = 2%nat ∧
    all_chars is_digit month = true ∧ String.length month = 2%nat ∧
    all_chars is_digit year = true ∧ String.length year = 4%nat ∧
    dateString = day +:+ String "-" (month +:+ String "-" year) ∧
    iso = year +:+ String "-" (month +:+ String "-" day).
Proof.
  unfold toIsoDate. split.
  - destruct (nonempty dateString); [|done].
    destruct (match_ISO_DATE dateString) as [[[day month] year]|] eqn:Hm; [|done].
    intros [= <-]. exists day, month, year.
    unfold match_ISO_DATE in Hm.
    apply bind_Some in Hm as ([day' r1] & Hday & Hm).
    apply bind_Some in Hm as (r2 & H1 & Hm).
    apply bind_Some in Hm as ([month' r3] & Hmonth & Hm).
    apply bind_Some in Hm as (r4 & H2 & Hm).
    apply bind_Some in Hm as ([year' r5] & Hyear & Hm).
    destruct (nonempty r5) eqn:H5; [done|]. injection Hm as <- <- <-.
    destruct (digitsN_spec _ _ _ _ Hday) as (-> & Hd & Hdl).
    destruct (digitsN_spec _ _ _ _ Hmonth) as (-> & Hmo & Hml).
    destruct (digitsN_spec _ _ _ _ Hyear) as (-> & Hy & Hyl).
    destruct r5; [|done]. rewrite append_nil_r in H2.
    unfold expect in H1, H2.
    destruct r1 as [|a r1]; [done|]. destruct (Ascii.eqb_spec a "-") as [->|]; [|done].
    injection H1 as ->.
    destruct r3 as [|b r3]; [done|]. destruct (Ascii.eqb_spec b "-") as [->|]; [|done].
    by injection H2 as ->.
  - intros (day & month & year & Hd & Hdl & Hmo & Hml & Hy & Hyl & -> & ->).
    fold (toIsoDate (day +:+ String "-" (month +:+ String "-" year))).
    by apply toIsoDate_accepts.
Qed.

(** ** The title of a statement, and the names of its files *)









(** ** The definitions on small inputs *)

Example match_VALUE_LINE_examples :
  match_VALUE_LINE "04-04 1500,00 +" = Some ("04", "04", None, "1500,00", "+"%char) ∧
  match_VALUE_LINE "04-04-2024 1.500,00-" =
    Some ("04", "04", Some "2024", "1.500,00", "-"%char) ∧
  match_VALUE_LINE "04-04-202 1,00 -" = None ∧
  match_VALUE_LINE "04-04 1,00" = None ∧
  match_ISO_DATE "01-04-2024" = Some ("01", "04", "2024") ∧
  match_operation "0015 SEPA CREDIT TRANSFER" = Some ("0015", "SEPA CREDIT TRANSFER") ∧
  match_operation "1015 SEPA" = None.
Proof. vm_compute. repeat split; reflexivity. Qed.

Example parseEuropeanNumber_examples :
  parseEuropeanNumber "1.500,00" = 1500%Q ∧
  parseEuropeanNumber "0,50" = (1 # 2)%Q ∧
  parseEuropeanNumber "," = 0%Q ∧
  parseEuropeanNumber "..." = 0%Q ∧
  parseEuropeanNumber "1,2,3" = (6 # 5)%Q.
Proof. vm_compute. repeat split; reflexivity. Qed.

(** The operation of the scenario of the specification: a credit transfer
    of 1500.00 booked on 2024-04-01 with value date 04-04. *)
Example scenario_operation :
  (fun op => (sequence op, amount op, direction op, bookingDate op, valueDate op,
              communication op)) <$>
    operations_loop 3
      ["0015 SEPA CREDIT TRANSFER"; "Communication: INV 220006"; "04-04 1500,00 +"]
      (Some "2024-04-01") (Some "EUR") =
  [("0015", Some 1500%Q, Some "credit", Some "2024-04-01", Some "2024-04-04",
    Some "INV 220006")].
Proof. vm_compute. reflexivity. Qed.

Example computeConfidence_examples :
  computeConfidence (Some 0%Q) 3 3 "invoice amount" = 99 ∧
  computeConfidence (Some 0%Q) 3 0 "recorded partial payment" = 88 ∧
  computeConfidence (Some 3%Q) 0 0 "invoice amount" = 73 ∧
  computeConfidence (Some 200%Q) 0 0 "invoice amount" = 41 ∧
  computeConfidence None 2 1 "invoice amount" = 73.
Proof. vm_compute. repeat split; reflexivity. Qed.

Example tokenize_examples :
  tokenize (Some "  Dupont, Jean-Paul  S.A. ") = ["dupont"; "jean"; "paul"; "s"; "a"] ∧
  tokenize None = [] ∧
  computeNameScore "Jean Dupont" (Some "DUPONT JEAN") = 2 ∧
  normalize (Some " inv 22 0006 ") = "INV220006".
Proof. vm_compute. repeat split; reflexivity. Qed.

(** ** The properties on the examples *)

(** C1: an entry of the index whose amount is that of the invoice and
    which has no date is dropped by the date test of the default window:
    its day difference is [Infinity], which is greater than 120.  With an
    unbounded window the same entry is a candidate with a null day
    difference, and so is it with a date. *)
Theorem undated_entry_is_dropped :
  let matches := findMatchesForInvoice isoDate_getTime decimal_StringToNumber in
  let undated := example_entry "0016" None None in
  loadOperations "operations-index.json"
    (Some {| index_generatedAt := 0; index_operations := [undated] |}) = Ok [undated] ∧
  amount_matches undated invoice_amount_target = true ∧
  daysOf isoDate_getTime open_invoice undated = Infinity ∧
  matches (Num 120) open_invoice [undated] = [] ∧
  daysDiff <$> matches PosInfinity open_invoice [undated] = [None] ∧
  daysDiff <$> matches (Num 120) open_invoice [example_operation] =
    [Some (0 # 86400000)%Q].
Proof. vm_compute. repeat split; reflexivity. Qed.

(** The parser yields such an entry from a value line without year that
    no booking date precedes. *)
Example undated_operation_parsed :
  (fun op => (bookingDate op, valueDate op, amount op, direction op)) <$>
    operations_loop 3 ["0016 SEPA CREDIT TRANSFER"; "04-04 1500,00 +"] None (Some "EUR") =
  [(None, None, Some 1500%Q, Some "credit")].
Proof. vm_compute. reflexivity. Qed.

(** C2, against the claim: for an open invoice of 1500.00 with a balance
    of 0.004, the one operation of the index is reported twice, for the
    invoice amount and for the recorded partial payment. *)
Lemma same_operation_reported_twice :
  let invoice := example_invoice (JNum 1500) (JNum (4 # 1000)) (Some "2024-04-01") in
  let matches :=
    findMatchesForInvoice isoDate_getTime decimal_StringToNumber (Num 120)
      invoice [example_operation] in
  is_open_invoice decimal_StringToNumber invoice = true ∧
  operation <$> matches = [example_operation; example_operation] ∧
  targetLabel <$> matches = ["invoice amount"; "recorded partial payment"] ∧
  ¬ NoDup (operation <$> matches).
Proof.
  cbv zeta. split; [by vm_compute|]. split; [by vm_compute|]. split; [by vm_compute|].
  replace (operation <$> _) with [example_operation; example_operation] by (by vm_compute).
  intros Hnd. apply NoDup_cons in Hnd as [Hnotin _]. apply Hnotin. by left.
Qed.




Lemma confidence_same_day_reference_witness :
  let matches :=
    findMatchesForInvoice isoDate_getTime decimal_StringToNumber (Num 120)
      open_invoice [example_operation] in
  let c := candidateOf isoDate_getTime open_invoice invoice_amount_target example_operation in
  c ∈ matches ∧
  daysDiff c = Some (0 # 86400000)%Q ∧ refScore c = 3 ∧ 80 <= confidence c.
Proof.
  cbv zeta.
  set (c := candidateOf isoDate_getTime open_invoice invoice_amount_target
              example_operation).
  assert (Hin : c ∈ findMatchesForInvoice isoDate_getTime decimal_StringToNumber (Num 120)
                      open_invoice [example_operation]).
  { replace (findMatchesForInvoice _ _ _ _ _) with [c] by (by vm_compute). by left. }
  split; [exact Hin|]. split; [by vm_compute|]. split; [by vm_compute|].
  apply (confidence_same_day_reference isoDate_getTime decimal_StringToNumber (Num 120)
           open_invoice [example_operation] c (0 # 86400000)%Q Hin).
  - by vm_compute.
  - reflexivity.
  - by vm_compute.
Defined.

Lemma index_rebuild_witness :
  let r1 := import_main simple_join simple_basename fixed_clock
              example_zipFiles example_pdfFiles example_options empty_world in
  let r2 := import_main simple_join simple_basename later_clock
              example_zipFiles example_pdfFiles example_options (world r1) in
  processedStatements r1 <> [] ∧
  run_failures r2 = run_failures r1 ∧
  aggregate simple_basename (processedStatements r2) =
    aggregate simple_basename (processedStatements r1) ∧
  ∃ t1 t2,
    files (world r1) !! indexPath simple_join (outputDir example_options) =
      Some (IndexJson {| index_generatedAt := t1;
                         index_operations :=
                           aggregate simple_basename (processedStatements r1) |}) ∧
    files (world r2) !! indexPath simple_join (outputDir example_options) =
      Some (IndexJson {| index_generatedAt := t2;
                         index_operations :=
                           aggregate simple_basename (processedStatements r1) |}).
Proof.
  cbv zeta.
  assert (Hne : processedStatements
                  (import_main simple_join simple_basename fixed_clock
                     example_zipFiles example_pdfFiles example_options empty_world) <> [])
    by (by vm_compute).
  destruct (index_rebuild_deterministic simple_join simple_basename fixed_clock later_clock
              example_zipFiles example_pdfFiles example_options empty_world
              (world (import_main simple_join simple_basename fixed_clock
                        example_zipFiles example_pdfFiles example_options empty_world)))
    as (Hf & Ha & Hi).
  - repeat constructor.
  - by left.
  - split; [exact Hne|]. split; [exact Hf|]. split; [exact Ha|]. exact (Hi Hne).
Defined.


Lemma window_boundary_witness :
  let at_120 := example_entry "0017" (Some "2024-07-30") None in
  let at_121 := example_entry "0018" (Some "2024-07-31") None in
  let candidates :=
    (collectCandidates isoDate_getTime decimal_StringToNumber (Num 120)
       open_invoice [at_120; at_121]).2 in
  let matches :=
    findMatchesForInvoice isoDate_getTime decimal_StringToNumber (Num 120)
      open_invoice [at_120; at_121] in
  daysOf isoDate_getTime open_invoice at_120 = Finite (10368000000 # 86400000)%Q ∧
  daysOf isoDate_getTime open_invoice at_121 = Finite (10454400000 # 86400000)%Q ∧
  candidateOf isoDate_getTime open_invoice invoice_amount_target at_120 ∈ candidates ∧
  candidateOf isoDate_getTime open_invoice invoice_amount_target at_120 ∈ matches ∧
  (∀ c, c ∈ candidates -> operation c <> at_121).
Proof.
  cbv zeta.
  set (at_120 := example_entry "0017" (Some "2024-07-30") None).
  set (at_121 := example_entry "0018" (Some "2024-07-31") None).
  assert (Htarget : invoice_amount_target ∈ targetsOf decimal_StringToNumber open_invoice)
    by (vm_compute; by left).
  assert (Hunique : ∀ target' op',
            target' ∈ targetsOf decimal_StringToNumber open_invoice ->
            op' ∈ [at_120; at_121] ->
            operationKey op' target' = operationKey at_120 invoice_amount_target ->
            op' = at_120 ∧ target_label target' = target_label invoice_amount_target).
  { intros target' op' Ht' Hop' Hkey.
    assert (target' = invoice_amount_target) as ->.
    { vm_compute in Ht'. apply list_elem_of_singleton in Ht'. exact Ht'. }
    split; [|reflexivity].
    apply elem_of_cons in Hop' as [->|Hop']; [reflexivity|].
    apply list_elem_of_singleton in Hop' as ->. by vm_compute in Hkey. }
  split; [by vm_compute|]. split; [by vm_compute|].
  destruct (window_boundary isoDate_getTime decimal_StringToNumber (Num 120)
              open_invoice [at_120; at_121] invoice_amount_target at_120
              (10368000000 # 86400000)%Q eq_refl Htarget)
    as [Hincluded _].
  - by left.
  - by vm_compute.
  - by vm_compute.
  - destruct (window_boundary isoDate_getTime decimal_StringToNumber (Num 120)
                open_invoice [at_120; at_121] invoice_amount_target at_121
                (10454400000 # 86400000)%Q eq_refl Htarget)
      as [_ Hexcluded].
    + right. by left.
    + by vm_compute.
    + by vm_compute.
    + destruct (Hincluded eq_refl) as (_ & _ & Hcandidate).
      destruct (Hcandidate Hunique) as (Hin & _ & Hreturned).
      split; [exact Hin|]. split; [apply Hreturned; vm_compute; lia|].
      exact (proj2 (Hexcluded eq_refl)).
Defined.

(** C9, against the claim: an open invoice without a usable amount is
    matched without any error; the run ends normally, and the invoice has
    no candidate. *)
Lemma unusable_amount_raises_nothing :
  let invoice := example_invoice JNull (JNum 1500) (Some "2024-04-01") in
  let run :=
    match_main isoDate_getTime decimal_StringToNumber (Num 120) example_env
      "operations-index.json" (Some example_index) [invoice] None in
  parseNumber decimal_StringToNumber (inv_amount invoice) = None ∧
  is_open_invoice decimal_StringToNumber invoice = true ∧
  findMatchesForInvoice isoDate_getTime decimal_StringToNumber (Num 120)
    invoice [example_operation] = [] ∧
  run = Ok [] ∧
  ¬ ∃ message, run = Err message.
Proof.
  cbv zeta. split; [reflexivity|]. split; [by vm_compute|]. split; [by vm_compute|].
  assert (H : match_main isoDate_getTime decimal_StringToNumber (Num 120) example_env
                "operations-index.json" (Some example_index)
                [example_invoice JNull (JNum 1500) (Some "2024-04-01")] None = Ok [])
    by (by vm_compute).
  split; [exact H|]. intros [message Hm]. rewrite H in Hm. discriminate.
Qed.

Lemma matcher_ends_normally_witness :
  let invoice := example_invoice JNull (JNum 1500) (Some "2024-04-01") in
  ∃ report,
    match_main isoDate_getTime decimal_StringToNumber (Num 120) example_env
      "operations-index.json" (Some example_index) [invoice; open_invoice] None =
      Ok report ∧
    findMatchesForInvoice isoDate_getTime decimal_StringToNumber (Num 120)
      invoice [example_operation] = [] ∧
    invoice ∉ report.*1.
Proof.
  cbv zeta.
  destruct (matcher_ends_normally isoDate_getTime decimal_StringToNumber (Num 120)
              example_env "operations-index.json" (Some example_index)
              [example_invoice JNull (JNum 1500) (Some "2024-04-01"); open_invoice]
              None "secret" [example_operation])
    as (report & Hreport & Hall).
  - by vm_compute.
  - reflexivity.
  - by vm_compute.
  - discriminate.
  - exists report. split; [exact Hreport|].
    destruct (Hall (example_invoice JNull (JNum 1500) (Some "2024-04-01"))) as [Hnone _].
    apply Hnone. intros target op Ht. by vm_compute in Ht; apply elem_of_nil in Ht.
Defined.


(** ** The further properties on the examples *)

Lemma collectSources_finds_witness :
  collectSources simple_join "inbox" (StatOther (Ok example_tree)) true =
    Ok {| found_zipFiles := ["inbox/2024-01.ZIP"];
          found_pdfFiles := ["inbox/2024/extra.pdf"] |} ∧
  (∃ name, reached_file simple_join "inbox" example_tree "inbox/2024-01.ZIP" name ∧
           endsWith (toLowerCase name) ".zip" = true) ∧
  (∃ name, reached_file simple_join "inbox" example_tree "inbox/2024/extra.pdf" name ∧
           endsWith (toLowerCase name) ".pdf" = true).
Proof.
  assert (Hfound : collectSources simple_join "inbox" (StatOther (Ok example_tree)) true =
                   Ok {| found_zipFiles := ["inbox/2024-01.ZIP"];
                         found_pdfFiles := ["inbox/2024/extra.pdf"] |})
    by (by vm_compute).
  destruct (collectSources_finds simple_join "inbox" (Ok example_tree) true _ Hfound)
    as (entries & Hentries & Hzip & Hpdf).
  injection Hentries as <-.
  split; [exact Hfound|]. split.
  - apply Hzip. simpl. apply list_elem_of_here.
  - destruct (Hpdf "inbox/2024/extra.pdf") as [Hp _].
    destruct Hp as (_ & name & Hname & _ & Hext); [simpl; apply list_elem_of_here|].
    by exists name.
Defined.

Lemma fetchAllInvoices_pages_witness :
  fetchAllInvoices decimal_StringToNumber example_responses 2 = Some (Ok [open_invoice]).
Proof.
  destruct (fetchAllInvoices_pages decimal_StringToNumber example_responses 2 2)
    as [Hpages _]; [lia|lia|].
  rewrite Hpages; [by vm_compute|].
  intros page Hpage.
  assert (Hcases : page = 1 ∨ page = 2) by lia.
  destruct Hcases as [-> | ->]; eexists _, _; (split; [reflexivity|]); by split.
Defined.

Lemma parseOptions_two_syntaxes_witness :
  parseOptions_loop decimal_StringToNumber ["--since=2024-01-01"; "--verbose"]
    {| opt_perPage := Some 200%Q; opt_insecure := false; opt_verbose := false;
       opt_since := None |} =
  Parsed {| opt_perPage := Some 200%Q; opt_insecure := false; opt_verbose := true;
            opt_since := Some "2024-01-01" |} ∧
  parseOptions_loop decimal_StringToNumber ["--per-page=50"; "--verbose"]
    {| opt_perPage := Some 200%Q; opt_insecure := false; opt_verbose := false;
       opt_since := None |} =
  parseOptions_loop decimal_StringToNumber ["--per-page"; "50"; "--verbose"]
    {| opt_perPage := Some 200%Q; opt_insecure := false; opt_verbose := false;
       opt_since := None |}.
Proof.
  split.
  - destruct (parseOptions_two_syntaxes decimal_StringToNumber "2024-01-01" ["--verbose"]
                {| opt_perPage := Some 200%Q; opt_insecure := false; opt_verbose := false;
                   opt_since := None |}) as [Hsince _]; [reflexivity|reflexivity|].
    change ("--since=" +:+ "2024-01-01") with "--since=2024-01-01" in Hsince.
    rewrite Hsince. by vm_compute.
  - destruct (parseOptions_two_syntaxes decimal_StringToNumber "50" ["--verbose"]
                {| opt_perPage := Some 200%Q; opt_insecure := false; opt_verbose := false;
                   opt_since := None |}) as [_ Hpage]; [reflexivity|reflexivity|].
    exact Hpage.
Defined.


Lemma processed_statements_written_witness :
  let r := import_main simple_join simple_basename fixed_clock
             example_zipFiles example_pdfFiles keep_options used_world in
  length (processedStatements r) = 2%nat ∧
  NoDup (outputPath <$> processedStatements r) ∧
  ∀ p, p ∈ processedStatements r ->
    files used_world !! outputPath p = None ∧
    (outputPath p ≠ indexPath simple_join (outputDir keep_options) ->
     files (world r) !! outputPath p = Some (StatementJson (parsed p))).
Proof.
  cbv zeta. split; [by vm_compute|].
  apply (processed_statements_written simple_join simple_basename fixed_clock
           example_zipFiles example_pdfFiles keep_options used_world).
  reflexivity.
Defined.



Lemma match_main_report_witness :
  ∃ report,
    match_main isoDate_getTime decimal_StringToNumber (Num 120) example_env
      "operations-index.json" (Some example_index) [paid_invoice; open_invoice]
      (Some "2024-01-01") = Ok report ∧
    report.*1 = [open_invoice] ∧
    ∀ invoice candidates, (invoice, candidates) ∈ report ->
      is_open_invoice decimal_StringToNumber invoice = true ∧ candidates ≠ [].
Proof.
  destruct (match_main isoDate_getTime decimal_StringToNumber (Num 120) example_env
              "operations-index.json" (Some example_index) [paid_invoice; open_invoice]
              (Some "2024-01-01")) as [report|m] eqn:Hmain; [|by vm_compute in Hmain].
  exists report. split; [reflexivity|].
  split; [vm_compute in Hmain; by injection Hmain as <-|].
  destruct (match_main_report isoDate_getTime decimal_StringToNumber (Num 120) example_env
              "operations-index.json" (Some example_index) [paid_invoice; open_invoice]
              (Some "2024-01-01") report Hmain)
    as (operations & _ & _ & Hreport & _).
  intros invoice candidates Hin.
  destruct (Hreport invoice candidates Hin) as (Hopen & _ & Hne & _). by split.
Defined.




